(** * supabase-keep-alive: a shallow embedding of [api/keepalive.py]

    The module keeps two globals, [config_list] and [startup_error], filled
    once at import time from the environment variable [SUPABASE_CONFIG], and
    serves three routes that ping the configured Supabase projects.

    Layout of the development:
    - decoded JSON values, exceptions and their [str()];
    - module initialisation (lines 17-40 of the source);
    - the Supabase client as an interface, and the monad of state,
      exceptions and a log of client calls;
    - [_perform_ping] and the two lookups (lines 45-101);
    - the three handlers (lines 109-149);
    - the vocabulary of the statements and a test double for the client;
    - the lemmas and theorems, one group per component. *)

From stdpp Require Import gmap strings list fin_maps pretty.
From Stdlib Require Import ZArith Lia.

#[local] Set Warnings "-register-all".
#[local] Open Scope string_scope.

(* ===================================================================== *)
(** ** Python values and exceptions *)
(* ===================================================================== *)

(** What [json.loads] can return. A float is carried by its [repr]; a JSON
    object is a [dict] with string keys. *)
Inductive json : Type :=
| JNull
| JBool (b : bool)
| JInt (n : Z)
| JFloat (repr : string)
| JStr (s : string)
| JArr (l : list json)
| JObj (m : gmap string json).

(** [type(v).__name__] *)
Definition type_name (v : json) : string :=
  match v with
  | JNull => "NoneType"
  | JBool _ => "bool"
  | JInt _ => "int"
  | JFloat _ => "float"
  | JStr _ => "str"
  | JArr _ => "list"
  | JObj _ => "dict"
  end.

(** The position data of a [json.JSONDecodeError]. *)
Record decode_error := DecodeError {
  de_msg : string;
  de_lineno : nat;
  de_colno : nat;
  de_pos : nat
}.

(** Instances of [Exception] the module can meet. [ClientError] stands for
    whatever the Supabase client raises (network, authentication, API
    faults), identified by its [str()]. *)
Inductive exn : Type :=
| JSONDecodeError (e : decode_error)
| ValueError (msg : string)
| AttributeError (msg : string)
| KeyError (key : string)
| IndexError (msg : string)
| ClientError (detail : string)
| HTTPException (status_code : nat) (detail : string).

(** [str(e)]. For [KeyError] it is the [repr] of the key; every key the
    module subscripts with is a plain identifier, whose [repr] is the key
    between single quotes. *)
Definition str_exn (e : exn) : string :=
  match e with
  | JSONDecodeError d =>
      de_msg d ++ ": line " ++ pretty (de_lineno d)
               ++ " column " ++ pretty (de_colno d)
               ++ " (char " ++ pretty (de_pos d) ++ ")"
  | ValueError msg => msg
  | AttributeError msg => msg
  | KeyError key => "'" ++ key ++ "'"
  | IndexError msg => msg
  | ClientError detail => detail
  | HTTPException code detail => pretty code ++ ": " ++ detail
  end.

(** [sep.join(l)] *)
Fixpoint join (sep : string) (l : list string) : string :=
  match l with
  | [] => ""
  | [x] => x
  | x :: rest => x ++ sep ++ join sep rest
  end.

(** Truthiness of a value of type [str | None]. *)
Definition truthy (o : option string) : bool :=
  match o with
  | None => false
  | Some s => negb (String.eqb s "")
  end.

(* ===================================================================== *)
(** ** Module initialisation *)
(* ===================================================================== *)

Record module_state := ModuleState {
  config_list : json;
  startup_error : option string
}.

Definition required_fields : gset string :=
  {[ "name"; "supabase_url"; "supabase_key"; "table_name" ]}.

Definition format_error_msg : string := "SUPABASE_CONFIG 必须是 JSON 数组格式".
Definition empty_error_msg : string := "SUPABASE_CONFIG 不能为空数组".

(** The message of line 36; [missing] is the set in iteration order. *)
Definition missing_error_msg (idx : nat) (missing : list string) : string :=
  "配置 index=" ++ pretty idx ++ " 缺少字段: " ++ join ", " missing.

(** [conf.keys()]: only a [dict] has the attribute. *)
Definition keys (conf : json) : exn + gset string :=
  match conf with
  | JObj m => inr (dom m)
  | _ => inl (AttributeError
                ("'" ++ type_name conf ++ "' object has no attribute 'keys'"))
  end.

Section Config.

(** The order in which Python iterates over a [set] of strings. It depends
    on the hash seed of the process, so it is left open. *)
Variable iter_set : gset string → list string.

(** The loop of lines 32-37, from index [idx] on. [None]: the loop ran to
    its end; [Some e]: it raised [e]. *)
Fixpoint check_fields (idx : nat) (l : list json) : option exn :=
  match l with
  | [] => None
  | conf :: rest =>
      match keys conf with
      | inl e => Some e
      | inr ks =>
          let missing := required_fields ∖ ks in
          if decide (missing = ∅) then check_fields (S idx) rest
          else Some (ValueError (missing_error_msg idx (iter_set missing)))
      end
  end.

(** Lines 25-37, on the decoded value. *)
Definition validate (v : json) : option exn :=
  match v with
  | JArr l =>
      match l with
      | [] => Some (ValueError empty_error_msg)
      | _ => check_fields 0 l
      end
  | _ => Some (ValueError format_error_msg)
  end.

(** Lines 19-40. The argument is the outcome of
    [json.loads(SUPABASE_CONFIG_RAW)]. When decoding raises, [config_list]
    keeps its initial value [[]]; otherwise it holds the decoded value,
    whatever validation says afterwards. The [print] of line 40 writes to
    the console and leaves no trace in the globals. *)
Definition module_init (decoded : decode_error + json) : module_state :=
  match decoded with
  | inl e =>
      {| config_list := JArr [];
         startup_error := Some (str_exn (JSONDecodeError e)) |}
  | inr v =>
      {| config_list := v;
         startup_error := str_exn <$> validate v |}
  end.

End Config.

(* ===================================================================== *)
(** ** The Supabase client, and the monad the handlers run in *)
(* ===================================================================== *)

(** A row of a query result: column name to value. The two columns the
    module reads, [schema_name] and [table_name], hold names, which the
    service returns as strings. *)
Abbreviation row := (gmap string string).

(** The client library, seen from the module: every call may change the
    state of the outside world and either returns or raises. [table_select]
    is the chain [.table(t).select("*", count="exact").limit(1).execute()],
    whose response the module ignores. *)
Record Supabase := {
  world : Type;
  client : Type;
  create_client : json → json → world → (exn + client) * world;
  sql_execute : client → string → world → (exn + list row) * world;
  table_select : client → string → world → (exn + ()) * world
}.

(** One entry of the log per call into the client. *)
Inductive event : Type :=
| EvCreateClient (url key : json)
| EvSql (query : string)
| EvTable (table : string).

(** [Stuck] marks a run that left the declared types of the globals; see
    [typed_config_list]. *)
Inductive result (A : Type) : Type :=
| Ok (a : A)
| Raise (e : exn)
| Stuck.
Arguments Ok {A} a.
Arguments Raise {A} e.
Arguments Stuck {A}.

Section Effects.

Context (B : Supabase).

Definition state : Type := world B * list event.

Definition M (A : Type) : Type := state → result A * state.

Definition ret {A} (a : A) : M A := λ σ, (Ok a, σ).

Definition raise {A} (e : exn) : M A := λ σ, (Raise e, σ).

Definition stuck {A} : M A := λ σ, (Stuck, σ).

Definition bind {A C} (m : M A) (k : A → M C) : M C :=
  λ σ, match m σ with
       | (Ok a, σ') => k a σ'
       | (Raise e, σ') => (Raise e, σ')
       | (Stuck, σ') => (Stuck, σ')
       end.

(** [try: body / except Exception as e: handler e] *)
Definition try_except {A} (body : M A) (handler : exn → M A) : M A :=
  λ σ, match body σ with
       | (Raise e, σ') => handler e σ'
       | r => r
       end.

(** A call into the client: log it, run it, turn its answer into a value
    or a raised exception. *)
Definition call {A} (ev : event) (f : world B → (exn + A) * world B) : M A :=
  λ σ, let '(w, log) := σ in
       match f w with
       | (inr a, w') => (Ok a, (w', (log ++ [ev])%list))
       | (inl e, w') => (Raise e, (w', (log ++ [ev])%list))
       end.

End Effects.

Arguments ret {B A} a.
Arguments raise {B A} e.
Arguments stuck {B A}.
Arguments bind {B A C} m k.
Arguments try_except {B A} body handler.
Arguments call {B A} ev f.

Notation "'let*' x := c 'in' k" := (bind c (λ x, k))
  (at level 10, x pattern, c at level 100, k at level 200).

(* ===================================================================== *)
(** ** The probe and the two lookups *)
(* ===================================================================== *)

Definition nl : string := String (Ascii.ascii_of_nat 10) "".

(** The query of lines 51-55. *)
Definition schemas_query : string :=
  nl ++ "            SELECT schema_name " ++
  nl ++ "            FROM information_schema.schemata " ++
  nl ++ "            WHERE schema_name NOT IN ('information_schema', 'pg_catalog', 'pg_toast')" ++
  nl ++ "        ".

(** The query of lines 64-68. *)
Definition tables_query (schema : string) : string :=
  nl ++ "                SELECT table_name " ++
  nl ++ "                FROM information_schema.tables " ++
  nl ++ "                WHERE table_schema = '" ++ schema ++ "' AND table_type = 'BASE TABLE'" ++
  nl ++ "            ".

(** A Python [dict] with string keys where the order of insertion matters:
    [all_tables] of the probe. *)
Abbreviation odict V := (list (string * V)).

(** [d[k] = v]: a key already present keeps its place. *)
Fixpoint dict_set {V} (k : string) (v : V) (d : odict V) : odict V :=
  match d with
  | [] => [(k, v)]
  | (k', v') :: d' =>
      if decide (k' = k) then (k, v) :: d' else (k', v') :: dict_set k v d'
  end.

(** Line 84. *)
Definition schema_info (all_tables : odict (list string)) : string :=
  join ", " (map (λ '(s, ts), s ++ ": [" ++ join ", " ts ++ "]") all_tables).

Section Probe.

Context (B : Supabase).

(** [str()] of a decoded value that is not a string, as an f-string
    renders it (numbers, [None], [repr] of containers): left open. *)
Variable str_other : json → string.

(** What [f"{v}"] inserts. *)
Definition py_str (v : json) : string :=
  match v with
  | JStr s => s
  | _ => str_other v
  end.

(** [d[k]] on a [dict]. *)
Definition getitem {V} (d : gmap string V) (k : string) : M B V :=
  match d !! k with
  | Some v => ret v
  | None => raise (KeyError k)
  end.

(** [[row[col] for row in rows]] *)
Fixpoint column (col : string) (rows : list row) : M B (list string) :=
  match rows with
  | [] => ret []
  | r :: rest =>
      let* v := getitem r col in
      let* vs := column col rest in
      ret (v :: vs)
  end.

(** The loop of lines 63-72. *)
Fixpoint collect_tables (supabase : client B) (schemas : list string)
    (all_tables : odict (list string)) : M B (odict (list string)) :=
  match schemas with
  | [] => ret all_tables
  | schema :: rest =>
      let* rows := call (EvSql (tables_query schema))
                        (sql_execute B supabase (tables_query schema)) in
      let* tables := column "table_name" rows in
      collect_tables supabase rest
        (match tables with
         | [] => all_tables
         | _ => dict_set schema tables all_tables
         end)
  end.

(** Lines 74-85: [all_tables] is filled; read one row of its first
    table. *)
Definition ping_first_table (conf : gmap string json) (supabase : client B)
    (all_tables : odict (list string)) : M B (bool * string) :=
  match all_tables with
  | [] =>
      let* name := getitem conf "name" in
      ret (false, "No tables found in any schema for " ++ py_str name)
  | (first_schema, tables) :: _ =>
      let* first_table :=
        match tables with
        | t :: _ => ret t
        | [] => raise (IndexError "list index out of range")
        end in
      let* _ := call (EvTable (first_schema ++ "." ++ first_table))
                     (table_select B supabase
                        (first_schema ++ "." ++ first_table)) in
      let* name := getitem conf "name" in
      ret (true, "Pinged " ++ py_str name ++ " (schemas and tables: "
                 ++ schema_info all_tables ++ ") successfully")
  end.

(** Lines 48-85: the body of the [try]. *)
Definition ping_body (conf : gmap string json) : M B (bool * string) :=
  let* url := getitem conf "supabase_url" in
  let* key := getitem conf "supabase_key" in
  let* supabase := call (EvCreateClient url key) (create_client B url key) in
  let* rows := call (EvSql schemas_query)
                    (sql_execute B supabase schemas_query) in
  let* schemas := column "schema_name" rows in
  match schemas with
  | [] =>
      let* name := getitem conf "name" in
      ret (false, "No schemas found for " ++ py_str name)
  | _ =>
      let* all_tables := collect_tables supabase schemas [] in
      ping_first_table conf supabase all_tables
  end.

(** Lines 45-88. *)
Definition _perform_ping (conf : gmap string json) : M B (bool * string) :=
  try_except (ping_body conf)
    (λ e, let* name := getitem conf "name" in
          ret (false, "Error pinging " ++ py_str name ++ ": " ++ str_exn e)).

(** [config_list] at its declared type [List[Dict[str, Any]]]. *)
Abbreviation configs := (list (gmap string json)).

(** Lines 91-94. *)
Definition _get_conf_by_index (config_list : configs) (idx : Z)
    : M B (gmap string json) :=
  if bool_decide ((idx < 0)%Z ∨ (idx >= Z.of_nat (length config_list))%Z)
  then raise (HTTPException 404 ("index " ++ pretty idx ++ " 不存在"))
  else match config_list !! Z.to_nat idx with
       | Some conf => ret conf
       | None => raise (IndexError "list index out of range")
       end.

(** [conf["name"] == name], the right-hand side being a [str]. *)
Definition eq_str (v : json) (name : string) : bool :=
  match v with
  | JStr s => bool_decide (s = name)
  | _ => false
  end.

(** Lines 97-101. *)
Fixpoint _get_conf_by_name (config_list : configs) (name : string)
    : M B (gmap string json) :=
  match config_list with
  | [] => raise (HTTPException 404 ("name '" ++ name ++ "' 未找到对应配置"))
  | conf :: rest =>
      let* n := getitem conf "name" in
      if eq_str n name then ret conf else _get_conf_by_name rest name
  end.

End Probe.

(* ===================================================================== *)
(** ** The routes *)
(* ===================================================================== *)

(** [JSONResponse(status_code=..., content={"status": ..., "message": ...})] *)
Record response := JSONResponse {
  status_code : nat;
  status : string;
  message : string
}.

(** [f"{startup_error}"] *)
Definition str_opt (o : option string) : string :=
  match o with
  | Some s => s
  | None => "None"
  end.

Definition as_dict (v : json) : option (gmap string json) :=
  match v with
  | JObj m => Some m
  | _ => None
  end.

(** The global [config_list] read at its declared type
    [List[Dict[str, Any]]]. The handlers are modelled on values of that type;
    on any other value a handler that gets past the start-up guard is
    [Stuck]. [init_typed] shows that initialisation never leaves such a
    value behind an open guard. *)
Definition typed_config_list (v : json) : option (list (gmap string json)) :=
  match v with
  | JArr l => mapM as_dict l
  | _ => None
  end.

(** What the framework sends for the outcome of a handler: the response
    itself, the status code of a raised [HTTPException], and 500 for any
    other exception. *)
Definition surfaced_status (r : result response) : option nat :=
  match r with
  | Ok resp => Some (status_code resp)
  | Raise (HTTPException code _) => Some code
  | Raise _ => Some 500
  | Stuck => None
  end.

Section Routes.

Context (B : Supabase).
Variable str_other : json → string.

(** The loop of lines 117-120, with [success_count] as accumulator. *)
Fixpoint ping_each (config_list : list (gmap string json))
    (success_count : nat) : M B nat :=
  match config_list with
  | [] => ret success_count
  | conf :: rest =>
      let* (success, msg) := _perform_ping B str_other conf in
      ping_each rest (if success : bool then S success_count
                      else success_count)
  end.

(** Lines 111-127. *)
Definition keepalive_all (st : module_state) : M B response :=
  if truthy (startup_error st) then
    ret (JSONResponse 500 "error"
           ("Startup failed: " ++ str_opt (startup_error st)))
  else
    match typed_config_list (config_list st) with
    | None => stuck
    | Some config_list =>
        let* success_count := ping_each config_list 0 in
        if bool_decide (success_count = length config_list) then
          ret (JSONResponse 200 "success" "ok")
        else if bool_decide (0 < success_count) then
          ret (JSONResponse 500 "error" "partial_failure")
        else
          ret (JSONResponse 500 "error" "all_failure")
    end.

(** Lines 131-138. The route without an index is the call with the
    default [idx = 0]. *)
Definition keepalive_by_index (st : module_state) (idx : Z)
    : M B response :=
  if truthy (startup_error st) then
    ret (JSONResponse 500 "error"
           ("Startup failed: " ++ str_opt (startup_error st)))
  else
    match typed_config_list (config_list st) with
    | None => stuck
    | Some config_list =>
        let* conf := _get_conf_by_index B config_list idx in
        let* (success, msg) := _perform_ping B str_other conf in
        ret (JSONResponse (if success : bool then 200 else 500)
               (if success : bool then "success" else "error") msg)
    end.

(** Lines 142-149. *)
Definition keepalive_by_name (st : module_state) (conf_name : string)
    : M B response :=
  if truthy (startup_error st) then
    ret (JSONResponse 500 "error"
           ("Startup failed: " ++ str_opt (startup_error st)))
  else
    match typed_config_list (config_list st) with
    | None => stuck
    | Some config_list =>
        let* conf := _get_conf_by_name B config_list conf_name in
        let* (success, msg) := _perform_ping B str_other conf in
        ret (JSONResponse (if success : bool then 200 else 500)
               (if success : bool then "success" else "error") msg)
    end.

End Routes.

(* ===================================================================== *)
(** ** Vocabulary of the statements *)
(* ===================================================================== *)

(** A target with the four fields of the external contract. *)
Definition well_formed (conf : gmap string json) : Prop :=
  is_Some (conf !! "name") ∧ is_Some (conf !! "supabase_url") ∧
  is_Some (conf !! "supabase_key") ∧ is_Some (conf !! "table_name").

(** The endpoint and credential a target is reached with. *)
Definition endpoint (conf : gmap string json) : json * json :=
  (default JNull (conf !! "supabase_url"),
   default JNull (conf !! "supabase_key")).

(** The targets a log shows a connection to, in order. *)
Definition contacted (log : list event) : list (json * json) :=
  omap (λ ev, match ev with
              | EvCreateClient url key => Some (url, key)
              | _ => None
              end) log.

(** The number of successful probes among [results]. *)
Definition successes (results : list (bool * string)) : nat :=
  length (filter (λ r, r.1 = true) results).

(** A handler that answered by itself: with a response, or with the 404 of
    a lookup. *)
Definition answered (r : result response) : Prop :=
  match r with
  | Ok _ => True
  | Raise (HTTPException 404 _) => True
  | _ => False
  end.

(** [needle in hay], on strings. *)
Fixpoint contains (needle hay : string) : bool :=
  String.prefix needle hay ||
  match hay with
  | EmptyString => false
  | String _ rest => contains needle rest
  end.

(** What the loop of lines 63-72 leaves in [all_tables] when the table
    query for a namespace [s] is answered with the tables [tabs s]. *)
Fixpoint record_tables (tabs : string → list string) (schemas : list string)
    (all_tables : odict (list string)) : odict (list string) :=
  match schemas with
  | [] => all_tables
  | schema :: rest =>
      record_tables tabs rest
        (match tabs schema with
         | [] => all_tables
         | tables => dict_set schema tables all_tables
         end)
  end.

(** Every key once; every entry a namespace with its tables, of which it
    has at least one. *)
Definition listed (tabs : string → list string) (d : odict (list string))
    : Prop :=
  NoDup d.*1 ∧ ∀ s ts, (s, ts) ∈ d → ts = tabs s ∧ ts ≠ [].

(** The listing with every discovered namespace in it, whether it has
    tables or not. *)
Definition listing_of_all (tabs : string → list string)
    (schemas : list string) : string :=
  join ", " ((λ s, s ++ ": [" ++ join ", " (tabs s) ++ "]") <$> schemas).

Section Vocabulary.

Context (B : Supabase).
Variable str_other : json → string.

(** The probe run on every target of the list, once each and in order,
    all results kept. *)
Fixpoint probe_each (confs : list (gmap string json))
    : M B (list (bool * string)) :=
  match confs with
  | [] => ret []
  | conf :: rest =>
      let* r := _perform_ping B str_other conf in
      let* rs := probe_each rest in
      ret (r :: rs)
  end.

(** Whenever it is asked, the catalog answers the table query for a
    namespace [s] of [schemas] with the tables [tabs s]. *)
Definition stable_catalog (c : client B) (schemas : list string)
    (tabs : string → list string) : Prop :=
  ∀ s w, s ∈ schemas →
    ∃ rows w', sql_execute B c (tables_query s) w = (inr rows, w') ∧
               mapM (λ r : row, r !! "table_name") rows = Some (tabs s).

(** A computation that never gets stuck. *)
Definition total {A} (m : M B A) : Prop := ∀ σ, (m σ).1 ≠ Stuck.

(** A computation that opens no connection. *)
Definition quiet {A} (m : M B A) : Prop :=
  ∀ σ, contacted (m σ).2.2 = contacted σ.2.

End Vocabulary.

Arguments total {B A} m.
Arguments quiet {B A} m.

(* ===================================================================== *)
(** ** A test double for the client *)
(* ===================================================================== *)

Definition name_row (col : string) (v : string) : row := {[ col := v ]}.

(** A backend with a fixed catalog: [schemas] in catalog order, the base
    tables of each, every table readable. Its state counts the calls it
    has served. *)
Definition catalog (schemas : list string) (tables : string → list string)
    : Supabase :=
  {| world := nat;
     client := ();
     create_client := λ _ _ w, (inr (), S w);
     sql_execute := λ _ q w,
       if bool_decide (q = schemas_query)
       then (inr (name_row "schema_name" <$> schemas), S w)
       else match list_find (λ s, q = tables_query s) schemas with
            | Some (_, s) => (inr (name_row "table_name" <$> tables s), S w)
            | None => (inl (ClientError "unknown relation"), S w)
            end;
     table_select := λ _ _ w, (inr (), S w) |}.

Definition conf_of (name url key table : string) : gmap string json :=
  {[ "name" := JStr name; "supabase_url" := JStr url;
     "supabase_key" := JStr key; "table_name" := JStr table ]}.

Definition str_plain (v : json) : string := "<" ++ type_name v ++ ">".

Definition demo_a : gmap string json :=
  conf_of "a" "https://a.supabase.co" "key-a" "items".
Definition demo_b : gmap string json :=
  conf_of "b" "https://b.supabase.co" "key-b" "items".

(** A second target under the name [b]. *)
Definition demo_b2 : gmap string json :=
  conf_of "b" "https://b2.supabase.co" "key-b2" "items".

Definition demo_decoded : decode_error + json :=
  inr (JArr [JObj demo_a; JObj demo_b; JObj demo_b2]).

(** Two namespaces, of which [empty] has no table. *)
Definition demo_tabs (s : string) : list string :=
  if bool_decide (s = "public") then ["t1"] else [].

Definition demo : Supabase := catalog ["public"; "empty"] demo_tabs.

(** No namespace at all, and one namespace without tables. *)
Definition demo_blank : Supabase := catalog [] demo_tabs.
Definition demo_bare : Supabase := catalog ["empty"] demo_tabs.

(** The backend [demo], except that the endpoints in [down] refuse the
    connection. *)
Definition demo_outage (down : list string) : Supabase :=
  {| world := nat;
     client := ();
     create_client := λ url key w,
       match url with
       | JStr u =>
           if bool_decide (u ∈ down)
           then (inl (ClientError "connection refused"), S w)
           else create_client demo url key w
       | _ => create_client demo url key w
       end;
     sql_execute := sql_execute demo;
     table_select := table_select demo |}.

(** The table queries of a list of namespaces, as entries of the log. *)
Definition table_queries (schemas : list string) : list event :=
  (λ s, EvSql (tables_query s)) <$> schemas.

(** A response whose status field agrees with its status code. *)
Definition coherent (resp : response) : Prop :=
  (status_code resp = 200%nat ∧ status resp = "success") ∨
  (status_code resp = 500%nat ∧ status resp = "error").

(** Two targets with the same [name], [supabase_url] and [supabase_key],
    present or absent alike. *)
Definition same_target (conf1 conf2 : gmap string json) : Prop :=
  conf1 !! "name" = conf2 !! "name" ∧
  conf1 !! "supabase_url" = conf2 !! "supabase_url" ∧
  conf1 !! "supabase_key" = conf2 !! "supabase_key".

(** The backend [catalog], except that the table query of the namespaces
    in [denied] is refused. *)
Definition catalog_denying (schemas : list string)
    (tables : string → list string) (denied : list string) : Supabase :=
  {| world := nat;
     client := ();
     create_client := λ _ _ w, (inr (), S w);
     sql_execute := λ _ q w,
       if bool_decide (q = schemas_query)
       then (inr (name_row "schema_name" <$> schemas), S w)
       else match list_find (λ s, q = tables_query s) schemas with
            | Some (_, s) =>
                if bool_decide (s ∈ denied)
                then (inl (ClientError "permission denied"), S w)
                else (inr (name_row "table_name" <$> tables s), S w)
            | None => (inl (ClientError "unknown relation"), S w)
            end;
     table_select := λ _ _ w, (inr (), S w) |}.

Definition demo_denied : Supabase :=
  catalog_denying ["public"; "secret"; "later"] demo_tabs ["secret"].

(** The namespace without tables first, then [public]. *)
Definition demo_late : Supabase := catalog ["empty"; "public"] demo_tabs.

(** A backend whose answers are rows without any column. *)
Definition demo_malformed : Supabase :=
  {| world := nat;
     client := ();
     create_client := λ _ _ w, (inr (), S w);
     sql_execute := λ _ _ w, (inr [∅], S w);
     table_select := λ _ _ w, (inr (), S w) |}.

(** The first target with another [table_name] and a field of its own. *)
Definition demo_a' : gmap string json :=
  <["table_name" := JStr "other"]> (<["region" := JStr "eu"]> demo_a).

(* ===================================================================== *)
(** ** Module initialisation: what a start-up leaves behind *)
(* ===================================================================== *)

Lemma required_fields_spec (m : gmap string json) :
  required_fields ∖ dom m = ∅ ↔ well_formed m.
Proof.
  unfold well_formed, required_fields.
  rewrite <- !elem_of_dom. split.
  - intros H.
    assert (Hsub : ∀ k : string,
      k ∈ ({["name"; "supabase_url"; "supabase_key"; "table_name"]}
             : gset string) → k ∈ dom m).
    { intros k Hk. destruct (decide (k ∈ dom m)) as [|Hn]; [done|].
      exfalso. apply (not_elem_of_empty (C:=gset string) k).
      rewrite <- H. by apply elem_of_difference. }
    split_and!; apply Hsub; set_unfold; tauto.
  - intros (? & ? & ? & ?). apply elem_of_equiv_empty_L. intros k.
    rewrite elem_of_difference. intros [Hk Hn]. apply Hn.
    rewrite !elem_of_union, !elem_of_singleton in Hk.
    destruct_or!; subst; done.
Qed.

Lemma truthy_nonempty s : s ≠ "" → truthy (Some s) = true.
Proof. intros H. simpl. by destruct (String.eqb_spec s ""). Qed.

Section ConfigFacts.

Variable iter_set : gset string → list string.

Lemma decode_error_nonempty e : str_exn (JSONDecodeError e) ≠ "".
Proof. destruct e as [[|a m] ln cn ps]; discriminate. Qed.

Lemma check_fields_nonempty l : ∀ idx e,
  check_fields iter_set idx l = Some e → str_exn e ≠ "".
Proof.
  induction l as [|conf rest IH]; intros idx e; simpl; [done|].
  destruct conf; simpl; try (intros [= <-]; discriminate).
  case_decide; [apply IH|]. intros [= <-]. discriminate.
Qed.

Lemma validate_nonempty v e : validate iter_set v = Some e → str_exn e ≠ "".
Proof.
  destruct v as [| | | | |l|]; simpl; try (intros [= <-]; discriminate).
  destruct l; [intros [= <-]; discriminate|].
  apply check_fields_nonempty.
Qed.

(** A recorded start-up error is never the empty string, so the guard
    [if startup_error:] of the routes is closed exactly when an error was
    recorded. *)
Lemma init_error_truthy decoded :
  truthy (startup_error (module_init iter_set decoded))
  = bool_decide (is_Some (startup_error (module_init iter_set decoded))).
Proof.
  destruct decoded as [e|v]; unfold module_init, startup_error.
  - rewrite truthy_nonempty by apply decode_error_nonempty.
    symmetry. apply bool_decide_eq_true. eauto.
  - destruct (validate iter_set v) as [e|] eqn:Hv; simpl fmap.
    + rewrite truthy_nonempty by (by eapply validate_nonempty).
      symmetry. apply bool_decide_eq_true. eauto.
    + symmetry. apply bool_decide_eq_false. by intros [? ?].
Qed.

(** The field check passes only on a list of complete objects. *)
Lemma check_fields_None l : ∀ idx,
  check_fields iter_set idx l = None →
  ∃ confs, l = JObj <$> confs ∧ Forall well_formed confs.
Proof.
  induction l as [|conf rest IH]; intros idx; simpl.
  - exists []. by split.
  - destruct conf; simpl; try done.
    case_decide as Hm; [|done]. intros Hrest.
    destruct (IH _ Hrest) as (confs & -> & Hall).
    exists (m :: confs). split; [done|].
    constructor; [by apply required_fields_spec|done].
Qed.

Lemma check_fields_complete confs : ∀ idx,
  Forall well_formed confs →
  check_fields iter_set idx (JObj <$> confs) = None.
Proof.
  induction confs as [|m confs IH]; intros idx Hall; simpl; [done|].
  inversion Hall as [|? ? Hm Hrest]; subst.
  apply required_fields_spec in Hm. rewrite decide_True by done.
  by apply IH.
Qed.

Lemma typed_config_list_objects confs :
  typed_config_list (JArr (JObj <$> confs)) = Some confs.
Proof.
  simpl. apply mapM_Some. induction confs; constructor; done.
Qed.

(** With no error recorded, [config_list] is a non-empty list of complete
    objects, and the handlers read it at its declared type. *)
Lemma init_typed decoded :
  startup_error (module_init iter_set decoded) = None →
  ∃ confs,
    config_list (module_init iter_set decoded) = JArr (JObj <$> confs) ∧
    typed_config_list (config_list (module_init iter_set decoded))
      = Some confs ∧
    confs ≠ [] ∧ Forall well_formed confs.
Proof.
  destruct decoded as [e|v]; simpl; [done|].
  destruct (validate iter_set v) as [e|] eqn:Hv; [done|]. intros _.
  destruct v as [| | | | |l|]; simpl in Hv; try done.
  destruct l as [|c l]; [done|].
  apply check_fields_None in Hv as (confs & Heq & Hall).
  exists confs. rewrite Heq. split; [done|].
  split; [apply typed_config_list_objects|]. split; [|done].
  intros ->. done.
Qed.

(** The checks in their order: a value that is not a list fails the
    first, the empty list the second, and only then are the elements
    looked at. *)
Lemma validate_in_order v :
  match v with
  | JArr [] => validate iter_set v = Some (ValueError empty_error_msg)
  | JArr l => validate iter_set v = check_fields iter_set 0 l
  | _ => validate iter_set v = Some (ValueError format_error_msg)
  end.
Proof. destruct v as [| | | | |[|c l]|]; reflexivity. Qed.

(** The field check stops at the first object that lacks a field, and
    names its index and the fields it lacks. *)
Lemma check_fields_first_missing (pre : list (gmap string json)) m rest idx :
  Forall well_formed pre → ¬ well_formed m →
  check_fields iter_set idx ((JObj <$> pre) ++ JObj m :: rest)%list
  = Some (ValueError
            (missing_error_msg (idx + length pre)
               (iter_set (required_fields ∖ dom m)))).
Proof.
  revert idx. induction pre as [|p pre IH]; intros idx Hpre Hm; simpl.
  - rewrite decide_False by (by rewrite required_fields_spec).
    by rewrite Nat.add_0_r.
  - inversion Hpre as [|? ? Hp Hrest]; subst.
    apply required_fields_spec in Hp. rewrite decide_True by done.
    rewrite IH by done. do 3 f_equal. lia.
Qed.

(** C4. The claim: start-up validation checks, in this order, that the
    input decodes to an array, that the array is not empty, and that
    every element has the required keys, the last failure being reported
    with the index of the offending element and the keys it lacks. The
    code at the array [[1]]: the element is no object, [conf.keys()]
    raises, and the recorded error is the text of that [AttributeError],
    not the message of line 36 for any index and keys. *)
Theorem init_element_not_an_object :
  startup_error (module_init iter_set (inr (JArr [JInt 1])))
  = Some "'int' object has no attribute 'keys'" ∧
  ∀ idx missing,
    startup_error (module_init iter_set (inr (JArr [JInt 1])))
    ≠ Some (missing_error_msg idx missing).
Proof. split; [reflexivity|]. intros idx missing. discriminate. Qed.

End ConfigFacts.

(* ===================================================================== *)
(** ** Reasoning in the monad *)
(* ===================================================================== *)

Create HintDb total.
Create HintDb quiet.

Section MonadFacts.

Context {B : Supabase}.

Lemma bind_Ok {A C} (m : M B A) (k : A → M B C) σ a σ1 :
  m σ = (Ok a, σ1) → bind m k σ = k a σ1.
Proof. unfold bind. by intros ->. Qed.

Lemma bind_Raise {A C} (m : M B A) (k : A → M B C) σ e σ1 :
  m σ = (Raise e, σ1) → bind m k σ = (Raise e, σ1).
Proof. unfold bind. by intros ->. Qed.

Lemma bind_Ok_inv {A C} (m : M B A) (k : A → M B C) σ c σ' :
  bind m k σ = (Ok c, σ') →
  ∃ a σ1, m σ = (Ok a, σ1) ∧ k a σ1 = (Ok c, σ').
Proof.
  unfold bind. destruct (m σ) as [[a|e|] σ1]; [eauto|done|done].
Qed.

Lemma call_Ok {A} ev (f : world B → (exn + A) * world B) w log a w' :
  f w = (inr a, w') → call ev f (w, log) = (Ok a, (w', (log ++ [ev])%list)).
Proof. unfold call. by intros ->. Qed.

Lemma call_Raise {A} ev (f : world B → (exn + A) * world B) w log e w' :
  f w = (inl e, w') →
  call ev f (w, log) = (Raise e, (w', (log ++ [ev])%list)).
Proof. unfold call. by intros ->. Qed.

Lemma getitem_run {V} (d : gmap string V) k v σ :
  d !! k = Some v → getitem B d k σ = (Ok v, σ).
Proof. unfold getitem. by intros ->. Qed.

Lemma getitem_Ok_inv {V} (d : gmap string V) k σ v σ' :
  getitem B d k σ = (Ok v, σ') → d !! k = Some v ∧ σ' = σ.
Proof. unfold getitem. destruct (d !! k); by intros [= <- <-]. Qed.

(** *** Never stuck *)

Lemma total_ret {A} (a : A) : total (B:=B) (ret a).
Proof. by intros σ. Qed.

Lemma total_raise {A} e : total (B:=B) (raise (A:=A) e).
Proof. by intros σ. Qed.

Lemma total_bind {A C} (m : M B A) (k : A → M B C) :
  total m → (∀ a, total (k a)) → total (bind m k).
Proof.
  intros Hm Hk σ. unfold bind. specialize (Hm σ).
  destruct (m σ) as [[a|e|] σ1]; simpl in *; [apply Hk|done|done].
Qed.

Lemma total_call {A} ev (f : world B → (exn + A) * world B) :
  total (call ev f).
Proof. intros [w log]. unfold call. by destruct (f w) as [[e|a] w']. Qed.

Lemma total_try_except {A} (body : M B A) handler :
  total body → (∀ e, total (handler e)) → total (try_except body handler).
Proof.
  intros Hb Hh σ. unfold try_except. specialize (Hb σ).
  destruct (body σ) as [[a|e|] σ1]; simpl in *; [done|apply Hh|done].
Qed.

Lemma total_getitem {V} (d : gmap string V) k : total (getitem B d k).
Proof.
  unfold getitem. destruct (d !! k); [apply total_ret|apply total_raise].
Qed.

(** *** No connection opened *)

Lemma contacted_snoc log ev :
  contacted (log ++ [ev]) =
  (contacted log ++ match ev with
                    | EvCreateClient url key => [(url, key)]
                    | _ => []
                    end)%list.
Proof. unfold contacted. rewrite omap_app. by destruct ev. Qed.

Lemma quiet_ret {A} (a : A) : quiet (B:=B) (ret a).
Proof. by intros σ. Qed.

Lemma quiet_raise {A} e : quiet (B:=B) (raise (A:=A) e).
Proof. by intros σ. Qed.

Lemma quiet_bind {A C} (m : M B A) (k : A → M B C) :
  quiet m → (∀ a, quiet (k a)) → quiet (bind m k).
Proof.
  intros Hm Hk σ. unfold bind. specialize (Hm σ).
  destruct (m σ) as [[a|e|] σ1]; simpl in *; [|done|done].
  by rewrite Hk.
Qed.

Lemma quiet_getitem {V} (d : gmap string V) k : quiet (getitem B d k).
Proof.
  unfold getitem. destruct (d !! k); [apply quiet_ret|apply quiet_raise].
Qed.

Lemma quiet_sql {A} q (f : world B → (exn + A) * world B) :
  quiet (call (EvSql q) f).
Proof.
  intros [w log]. unfold call.
  destruct (f w) as [[e|a] w']; simpl;
    by rewrite contacted_snoc, app_nil_r.
Qed.

Lemma quiet_table {A} t (f : world B → (exn + A) * world B) :
  quiet (call (EvTable t) f).
Proof.
  intros [w log]. unfold call.
  destruct (f w) as [[e|a] w']; simpl;
    by rewrite contacted_snoc, app_nil_r.
Qed.

(** A [try] whose body opens the connections [l] and whose handler opens
    none. *)
Lemma try_except_contacts {A} (body : M B A) handler l :
  (∀ σ, contacted (body σ).2.2 = (contacted σ.2 ++ l)%list) →
  (∀ e, quiet (handler e)) →
  ∀ σ, contacted (try_except body handler σ).2.2 = (contacted σ.2 ++ l)%list.
Proof.
  intros Hb Hh σ. unfold try_except. specialize (Hb σ).
  destruct (body σ) as [[a|e|] σ1]; simpl in *; [done| |done].
  by rewrite Hh.
Qed.

(** One connection, then none. *)
Lemma connect_contacts {A} url key (rest : client B → M B A) :
  (∀ c, quiet (rest c)) →
  ∀ σ, contacted
         ((let* supabase := call (EvCreateClient url key)
                              (create_client B url key) in
           rest supabase) σ).2.2
       = (contacted σ.2 ++ [(url, key)])%list.
Proof.
  intros Hrest [w log]. unfold bind, call.
  destruct (create_client B url key w) as [[e|c] w1]; simpl.
  - by rewrite contacted_snoc.
  - rewrite Hrest. simpl. by rewrite contacted_snoc.
Qed.

End MonadFacts.

#[export] Hint Resolve total_ret total_raise total_call total_getitem : total.
#[export] Hint Resolve quiet_ret quiet_raise quiet_sql quiet_table
  quiet_getitem : quiet.

(** Walks through a chain of [let*], closing each step from the database. *)
Tactic Notation "chain" constr(bind_lemma) "with" ident(db) :=
  repeat first
    [ apply bind_lemma; [ solve [auto with db] | intros ? ]
    | solve [auto with db]
    | match goal with
      | |- context [match ?x with _ => _ end] => destruct x
      end ].

(** Runs the next [let*] of the goal with the equation [H] of its first
    computation. *)
Ltac step H := rewrite (bind_Ok _ _ _ _ _ H).
Ltac step_raise H := rewrite (bind_Raise _ _ _ _ _ H).

(* ===================================================================== *)
(** ** The dictionary of namespaces and tables *)
(* ===================================================================== *)

Section Dict.

Context {V : Type}.
Implicit Types (d : odict V) (k : string) (v : V).

Lemma dict_set_fresh k v d :
  k ∉ d.*1 → dict_set k v d = (d ++ [(k, v)])%list.
Proof.
  induction d as [|[k' v'] d IH]; simpl; [done|].
  intros Hk. apply not_elem_of_cons in Hk as [Hne Hk].
  rewrite decide_False by done. by rewrite IH.
Qed.

Lemma dict_set_same k v d : NoDup d.*1 → (k, v) ∈ d → dict_set k v d = d.
Proof.
  induction d as [|[k' v'] d IH]; simpl; [by intros _ ?%elem_of_nil|].
  intros Hnd Hin. apply NoDup_cons in Hnd as [Hk' Hnd].
  apply elem_of_cons in Hin as [[= <- <-]|Hin].
  - by rewrite decide_True.
  - rewrite decide_False; [by rewrite IH|].
    intros ->. apply Hk'. apply list_elem_of_fmap. by exists (k, v).
Qed.

End Dict.

Lemma listed_nil tabs : listed tabs [].
Proof. split; [constructor|]. by intros ? ? ?%elem_of_nil. Qed.

Lemma listed_key tabs d s : listed tabs d → s ∈ d.*1 → (s, tabs s) ∈ d.
Proof.
  intros [_ Hd] Hs. apply list_elem_of_fmap in Hs as ([s' ts] & -> & Hin).
  simpl. by destruct (Hd _ _ Hin) as [<- _].
Qed.

Lemma listed_snoc tabs d s :
  listed tabs d → s ∉ d.*1 → tabs s ≠ [] →
  listed tabs (d ++ [(s, tabs s)]).
Proof.
  intros [Hnd Hd] Hs Hne. split.
  - rewrite fmap_app. apply NoDup_app. split; [done|].
    split; [|apply NoDup_singleton].
    intros y Hy Hy'. simpl in Hy'.
    apply list_elem_of_singleton in Hy' as ->. done.
  - intros s' ts [Hin|Hin]%elem_of_app; [by apply Hd|].
    by apply list_elem_of_singleton in Hin as [= -> ->].
Qed.

(** Against a catalog that answers [tabs], the dictionary ends up with
    exactly the namespaces that have a table, each with its tables. *)
Lemma record_tables_spec tabs schemas : ∀ acc,
  listed tabs acc →
  listed tabs (record_tables tabs schemas acc) ∧
  ∀ s ts, (s, ts) ∈ record_tables tabs schemas acc ↔
          (s, ts) ∈ acc ∨ (s ∈ schemas ∧ ts = tabs s ∧ ts ≠ []).
Proof.
  induction schemas as [|x schemas IH]; intros acc Hacc; simpl.
  - split; [done|]. intros s ts. split; [eauto|].
    intros [?|[?%elem_of_nil _]]; done.
  - assert (∃ acc', listed tabs acc' ∧
              match tabs x with
              | [] => acc
              | tables => dict_set x tables acc
              end = acc' ∧
              ∀ s ts, (s, ts) ∈ acc' ↔
                      (s, ts) ∈ acc ∨ (s = x ∧ ts = tabs s ∧ ts ≠ []))
      as (acc' & Hacc' & -> & Hstep).
    { destruct (tabs x) as [|t ts'] eqn:Hx.
      - exists acc. split_and!; [done..|]. intros s ts.
        split; [by left|]. intros [?|(-> & -> & ?)]; [done|congruence].
      - destruct (decide (x ∈ acc.*1)) as [Hin|Hnin].
        + pose proof (listed_key _ _ _ Hacc Hin) as Hin'. rewrite Hx in Hin'.
          exists acc. split; [done|].
          split; [by apply dict_set_same; [apply Hacc|]|]. intros s ts.
          split; [by left|]. intros [?|(-> & -> & ?)]; [done|].
          by rewrite Hx.
        + exists (acc ++ [(x, t :: ts')])%list. rewrite <- Hx.
          split; [apply listed_snoc; [done..|congruence]|].
          split; [by rewrite Hx, dict_set_fresh|]. intros s ts.
          rewrite elem_of_app, list_elem_of_singleton. split.
          * intros [?|[= -> ->]]; [by left|]. right. split_and!; congruence.
          * intros [?|(-> & -> & ?)]; [by left|by right]. }
    destruct (IH acc' Hacc') as [Hl Hm]. split; [done|].
    intros s ts. rewrite Hm, Hstep, elem_of_cons. tauto.
Qed.

(** When the catalog lists every namespace once, the dictionary is the
    catalog without the namespaces that have no table, in catalog order. *)
Lemma record_tables_NoDup tabs schemas : ∀ acc,
  NoDup schemas → (∀ s, s ∈ schemas → s ∉ acc.*1) →
  record_tables tabs schemas acc
  = (acc ++ filter (λ p, p.2 ≠ []) ((λ s, (s, tabs s)) <$> schemas))%list.
Proof.
  induction schemas as [|x schemas IH]; intros acc Hnd Hfresh; simpl.
  - by rewrite app_nil_r.
  - apply NoDup_cons in Hnd as [Hx Hnd].
    destruct (tabs x) as [|t ts'] eqn:Hx'.
    + rewrite filter_cons_False by (simpl; tauto).
      apply IH; [done|]. intros s Hs. apply Hfresh. by right.
    + rewrite filter_cons_True by done.
      rewrite dict_set_fresh by (apply Hfresh; by left).
      rewrite IH; [by rewrite <- app_assoc|done|].
      intros s Hs. rewrite fmap_app. intros [Hin|Hin]%elem_of_app.
      * eapply Hfresh; [by right|done].
      * simpl in Hin. apply list_elem_of_singleton in Hin as ->. done.
Qed.

(** The format of line 84 on the example of the documentation. *)
Example schema_info_format :
  schema_info [("ns1", ["t1"; "t2"]); ("ns2", ["t3"])]
  = "ns1: [t1, t2], ns2: [t3]".
Proof. reflexivity. Qed.

(* ===================================================================== *)
(** ** The probe *)
(* ===================================================================== *)

Section ProbeSteps.

Context (B : Supabase).
Variable str_other : json → string.

Lemma total_column col rows : total (column B col rows).
Proof. induction rows; simpl; chain (@total_bind B) with total. Qed.

Lemma quiet_column col rows : quiet (column B col rows).
Proof. induction rows; simpl; chain (@quiet_bind B) with quiet. Qed.

Hint Resolve total_column quiet_column : total quiet.

Lemma total_collect_tables c schemas :
  ∀ acc, total (collect_tables B c schemas acc).
Proof.
  induction schemas; intros acc; simpl; chain (@total_bind B) with total.
Qed.

Lemma quiet_collect_tables c schemas :
  ∀ acc, quiet (collect_tables B c schemas acc).
Proof.
  induction schemas; intros acc; simpl; chain (@quiet_bind B) with quiet.
Qed.

Hint Resolve total_collect_tables quiet_collect_tables : total quiet.

Lemma total_ping_first_table conf c all_tables :
  total (ping_first_table B str_other conf c all_tables).
Proof. unfold ping_first_table. chain (@total_bind B) with total. Qed.

Lemma quiet_ping_first_table conf c all_tables :
  quiet (ping_first_table B str_other conf c all_tables).
Proof. unfold ping_first_table. chain (@quiet_bind B) with quiet. Qed.

Hint Resolve total_ping_first_table quiet_ping_first_table : total quiet.

Lemma total_ping_body conf : total (ping_body B str_other conf).
Proof. unfold ping_body. chain (@total_bind B) with total. Qed.

(** The column of a result when every row has it; the state is not
    touched. *)
Lemma column_Some col rows vs σ :
  mapM (λ r : row, r !! col) rows = Some vs →
  column B col rows σ = (Ok vs, σ).
Proof.
  revert vs. induction rows as [|r rows IH]; intros vs; simpl.
  - by intros [= <-].
  - unfold mbind, option_bind at 1.
    destruct (r !! col) as [v|] eqn:Hv; [|done]. simpl.
    destruct (mapM _ rows) as [vs'|]; [|done]. intros [= <-].
    step (getitem_run (B:=B) _ _ _ σ Hv). by step (IH _ eq_refl).
Qed.

(** What the body of the [try] can return. *)
Lemma ping_body_Ok conf σ success msg σ' :
  ping_body B str_other conf σ = (Ok (success, msg), σ') →
  ∃ name, conf !! "name" = Some name ∧
    ((success = false ∧
      msg = "No schemas found for " ++ py_str str_other name) ∨
     (success = false ∧
      msg = "No tables found in any schema for " ++ py_str str_other name) ∨
     (success = true ∧ ∃ all_tables,
        all_tables ≠ [] ∧
        msg = "Pinged " ++ py_str str_other name
              ++ " (schemas and tables: " ++ schema_info all_tables
              ++ ") successfully")).
Proof.
  unfold ping_body. intros H.
  apply bind_Ok_inv in H as (url & σ1 & _ & H).
  apply bind_Ok_inv in H as (key & σ2 & _ & H).
  apply bind_Ok_inv in H as (c & σ3 & _ & H).
  apply bind_Ok_inv in H as (rows & σ4 & _ & H).
  apply bind_Ok_inv in H as ([|s schemas] & σ5 & _ & H).
  - apply bind_Ok_inv in H as (name & σ6 & Hn & H).
    apply getitem_Ok_inv in Hn as [Hn _]. injection H as <- <- _.
    exists name. eauto.
  - apply bind_Ok_inv in H as ([|[s1 ts] rest] & σ6 & _ & H);
      unfold ping_first_table in H.
    + apply bind_Ok_inv in H as (name & σ7 & Hn & H).
      apply getitem_Ok_inv in Hn as [Hn _]. injection H as <- <- _.
      exists name. eauto.
    + apply bind_Ok_inv in H as (t & σ7 & _ & H).
      apply bind_Ok_inv in H as (u & σ8 & _ & H).
      apply bind_Ok_inv in H as (name & σ9 & Hn & H).
      apply getitem_Ok_inv in Hn as [Hn _]. injection H as <- <- _.
      exists name. split; [done|]. right. right. split; [done|].
      by exists ((s1, ts) :: rest).
Qed.

(** The [try] statement around the body, for a target that has a
    name. *)
Lemma perform_ping_unfold conf name σ :
  conf !! "name" = Some name →
  _perform_ping B str_other conf σ
  = match ping_body B str_other conf σ with
    | (Raise e, σ1) =>
        (Ok (false, "Error pinging " ++ py_str str_other name ++ ": "
                    ++ str_exn e), σ1)
    | r => r
    end.
Proof.
  intros Hname. unfold _perform_ping, try_except.
  destruct (ping_body B str_other conf σ) as [[r|e|] σ1]; try done.
  by step (getitem_run (B:=B) _ _ _ σ1 Hname).
Qed.

Lemma perform_ping_Ok conf σ :
  is_Some (conf !! "name") →
  ∃ r σ', _perform_ping B str_other conf σ = (Ok r, σ').
Proof.
  intros [name Hname]. rewrite (perform_ping_unfold _ _ _ Hname).
  pose proof (total_ping_body conf σ) as Htot.
  destruct (ping_body B str_other conf σ) as [[r|e|] σ1]; by eauto.
Qed.

(** C2. For a target that has a name, the probe returns, whatever the
    client does: it never raises. When a step of the body raises an
    exception [e], the probe returns [False] with the message
    "Error pinging {name}: {e}"; and a returned [False] carries that
    message or one of the two messages of the catalog stages. *)
Theorem perform_ping_never_raises conf name :
  conf !! "name" = Some name →
  ∀ σ, ∃ success msg σ',
    _perform_ping B str_other conf σ = (Ok (success, msg), σ') ∧
    (∀ e σ1, ping_body B str_other conf σ = (Raise e, σ1) →
       success = false ∧ σ' = σ1 ∧
       msg = "Error pinging " ++ py_str str_other name ++ ": "
             ++ str_exn e) ∧
    (success = false →
       msg = "No schemas found for " ++ py_str str_other name ∨
       msg = "No tables found in any schema for "
             ++ py_str str_other name ∨
       ∃ e, msg = "Error pinging " ++ py_str str_other name ++ ": "
                  ++ str_exn e).
Proof.
  intros Hname σ. rewrite (perform_ping_unfold _ _ _ Hname).
  pose proof (total_ping_body conf σ) as Htot.
  destruct (ping_body B str_other conf σ)
    as [[[success msg]|e|] σ1] eqn:Hb; [| |done].
  - exists success, msg, σ1. split; [done|]. split; [done|].
    apply ping_body_Ok in Hb as (name' & Hn' & Hb).
    assert (name' = name) as -> by congruence.
    intros ->. destruct Hb as [[_ ->]|[[_ ->]|[? _]]]; eauto. done.
  - eexists false, _, σ1. split; [done|].
    split; [by intros ? ? [= <- <-]|]. eauto.
Qed.

End ProbeSteps.

#[export] Hint Resolve total_column total_collect_tables
  total_ping_first_table : total.
#[export] Hint Resolve quiet_column quiet_collect_tables
  quiet_ping_first_table : quiet.

Section ProbeStages.

Context (B : Supabase).
Variable str_other : json → string.

Lemma collect_tables_stable c tabs schemas :
  stable_catalog B c schemas tabs →
  ∀ acc σ, ∃ σ',
    collect_tables B c schemas acc σ
    = (Ok (record_tables tabs schemas acc), σ').
Proof.
  induction schemas as [|s schemas IH]; intros Hcat acc [w log]; simpl.
  - by eexists.
  - destruct (Hcat s w) as (rows & w' & Hq & Hrows); [by left|].
    step (call_Ok (EvSql (tables_query s)) _ _ log _ _ Hq).
    step (column_Some B _ _ _ (w', (log ++ [EvSql (tables_query s)])%list)
            Hrows).
    assert (stable_catalog B c schemas tabs) as Hcat'.
    { intros s' w0 Hs'. apply Hcat. by right. }
    destruct (tabs s); by apply IH.
Qed.

Lemma record_tables_no_tables schemas acc :
  record_tables (λ _, []) schemas acc = acc.
Proof. revert acc. induction schemas; simpl; done. Qed.

Variables (conf : gmap string json) (url key name : json).
Variables (w : world B) (log : list event).
Hypothesis Hurl : conf !! "supabase_url" = Some url.
Hypothesis Hkey : conf !! "supabase_key" = Some key.
Hypothesis Hname : conf !! "name" = Some name.

(** The connection fails. *)
Lemma ping_connection_failure e w1 :
  create_client B url key w = (inl e, w1) →
  _perform_ping B str_other conf (w, log)
  = (Ok (false, "Error pinging " ++ py_str str_other name ++ ": "
                ++ str_exn e),
     (w1, log ++ [EvCreateClient url key])%list).
Proof.
  intros Hc. rewrite (perform_ping_unfold _ _ _ _ _ Hname).
  unfold ping_body.
  step (getitem_run (B:=B) _ _ _ (w, log) Hurl).
  step (getitem_run (B:=B) _ _ _ (w, log) Hkey).
  by step_raise (call_Raise (EvCreateClient url key) _ _ log _ _ Hc).
Qed.

Variables (c : client B) (w1 : world B).
Hypothesis Hcreate : create_client B url key w = (inr c, w1).

(** The enumeration of the namespaces fails. *)
Lemma ping_schema_query_failure e w2 :
  sql_execute B c schemas_query w1 = (inl e, w2) →
  _perform_ping B str_other conf (w, log)
  = (Ok (false, "Error pinging " ++ py_str str_other name ++ ": "
                ++ str_exn e),
     (w2, log ++ [EvCreateClient url key; EvSql schemas_query])%list).
Proof.
  intros Hq. rewrite (perform_ping_unfold _ _ _ _ _ Hname).
  unfold ping_body.
  step (getitem_run (B:=B) _ _ _ (w, log) Hurl).
  step (getitem_run (B:=B) _ _ _ (w, log) Hkey).
  step (call_Ok (EvCreateClient url key) _ _ log _ _ Hcreate).
  step_raise (call_Raise (EvSql schemas_query) _ _
                (log ++ [EvCreateClient url key])%list _ _ Hq).
  by rewrite <- app_assoc.
Qed.

Variables (rows : list row) (w2 : world B) (schemas : list string).
Hypothesis Hquery : sql_execute B c schemas_query w1 = (inr rows, w2).
Hypothesis Hrows :
  mapM (λ r : row, r !! "schema_name") rows = Some schemas.

(** The body, run up to the point where the namespaces are known. *)
Lemma ping_body_discovered :
  ping_body B str_other conf (w, log)
  = match schemas with
    | [] => ret (false, "No schemas found for " ++ py_str str_other name)
    | _ => let* all_tables := collect_tables B c schemas [] in
           ping_first_table B str_other conf c all_tables
    end (w2, log ++ [EvCreateClient url key; EvSql schemas_query])%list.
Proof.
  unfold ping_body.
  step (getitem_run (B:=B) _ _ _ (w, log) Hurl).
  step (getitem_run (B:=B) _ _ _ (w, log) Hkey).
  step (call_Ok (EvCreateClient url key) _ _ log _ _ Hcreate).
  step (call_Ok (EvSql schemas_query) _ _
          (log ++ [EvCreateClient url key])%list _ _ Hquery).
  rewrite <- app_assoc. simpl app.
  step (column_Some B _ _ _
          (w2, (log ++ [EvCreateClient url key; EvSql schemas_query])%list)
          Hrows).
  destruct schemas; [|done].
  by step (getitem_run (B:=B) _ _ _
             (w2, (log ++ [EvCreateClient url key;
                           EvSql schemas_query])%list) Hname).
Qed.

(** The enumeration of the tables of the first namespace fails. *)
Lemma ping_table_query_failure s rest e w3 :
  schemas = s :: rest →
  sql_execute B c (tables_query s) w2 = (inl e, w3) →
  ∃ σ', _perform_ping B str_other conf (w, log)
        = (Ok (false, "Error pinging " ++ py_str str_other name ++ ": "
                      ++ str_exn e), σ').
Proof.
  intros Hs Hq. rewrite (perform_ping_unfold _ _ _ _ _ Hname).
  rewrite ping_body_discovered, Hs. simpl collect_tables.
  step_raise (bind_Raise _
    (λ rows, let* tables := column B "table_name" rows in
             collect_tables B c rest
               match tables with
               | [] => []
               | _ => dict_set s tables []
               end) _ _ _
    (call_Raise (EvSql (tables_query s)) _ _
       (log ++ [EvCreateClient url key; EvSql schemas_query])%list _ _ Hq)).
  by eexists.
Qed.

(** The catalog is read, but no table can be. *)
Lemma ping_select_failure tabs e :
  stable_catalog B c schemas tabs →
  (∃ s, s ∈ schemas ∧ tabs s ≠ []) →
  (∀ t w', ∃ w'', table_select B c t w' = (inl e, w'')) →
  ∃ σ', _perform_ping B str_other conf (w, log)
        = (Ok (false, "Error pinging " ++ py_str str_other name ++ ": "
                      ++ str_exn e), σ').
Proof.
  intros Hcat (s0 & Hs0 & Hne0) Hsel.
  destruct (record_tables_spec tabs schemas [] (listed_nil tabs))
    as [[_ Hval] Hmem].
  rewrite (perform_ping_unfold _ _ _ _ _ Hname), ping_body_discovered.
  destruct schemas as [|s ss] eqn:Hss; [by apply elem_of_nil in Hs0|].
  rewrite <- Hss in *.
  destruct (collect_tables_stable c _ _ Hcat []
              (w2, log ++ [EvCreateClient url key;
                           EvSql schemas_query])%list)
    as ([w3 log3] & Hcol).
  step Hcol. unfold ping_first_table.
  destruct (record_tables tabs schemas []) as [|[s1 ts1] rest] eqn:Hrec.
  { exfalso. eapply elem_of_nil, Hmem. eauto. }
  destruct (Hval s1 ts1) as [_ Hts1]; [by left|].
  destruct ts1 as [|t1 ts1]; [done|].
  destruct (Hsel (s1 ++ "." ++ t1) w3) as (w4 & Hsel').
  erewrite bind_Ok by reflexivity.
  step_raise (call_Raise (EvTable (s1 ++ "." ++ t1)) _ _ log3 _ _ Hsel').
  by eexists.
Qed.

(** C7. The diagnostics of the two catalog stages, for a target that can
    be connected to and whose namespaces can be enumerated. When no
    namespace is discovered, the probe returns [False] with
    "No schemas found for {name}". When namespaces are discovered and the
    table query of each is answered with no table, it returns [False]
    with "No tables found in any schema for {name}". *)
Theorem ping_catalog_diagnostics :
  (schemas = [] →
     _perform_ping B str_other conf (w, log)
     = (Ok (false, "No schemas found for " ++ py_str str_other name),
        (w2, log ++ [EvCreateClient url key; EvSql schemas_query])%list)) ∧
  (schemas ≠ [] → stable_catalog B c schemas (λ _, []) →
     ∃ σ', _perform_ping B str_other conf (w, log)
           = (Ok (false, "No tables found in any schema for "
                         ++ py_str str_other name), σ')).
Proof.
  rewrite (perform_ping_unfold _ _ _ _ _ Hname), ping_body_discovered.
  split.
  - by intros ->.
  - intros Hs Hcat. destruct schemas as [|s ss]; [done|].
    destruct (collect_tables_stable c _ _ Hcat []
                (w2, log ++ [EvCreateClient url key;
                             EvSql schemas_query])%list)
      as (σ' & Hcol).
    step Hcol. rewrite record_tables_no_tables. unfold ping_first_table.
    step (getitem_run (B:=B) _ _ _ σ' Hname). by eexists.
Qed.

(** C8, amended. A probe that succeeds end to end (connection, namespace
    query, a table query answered for every namespace, at least one
    namespace with a table, the first table readable) returns [True]
    with "Pinged {name} (schemas and tables: {schema_info}) successfully",
    where [schema_info] is line 84 on a dictionary that holds, once each,
    exactly the discovered namespaces that have at least one table, with
    their tables; when the catalog names every namespace once, these come
    in catalog order. A namespace without tables is not listed. *)
Theorem ping_success_message tabs :
  stable_catalog B c schemas tabs →
  (∃ s, s ∈ schemas ∧ tabs s ≠ []) →
  (∀ t w', ∃ w'', table_select B c t w' = (inr (), w'')) →
  ∃ all_tables σ',
    _perform_ping B str_other conf (w, log)
    = (Ok (true, "Pinged " ++ py_str str_other name
                 ++ " (schemas and tables: " ++ schema_info all_tables
                 ++ ") successfully"), σ') ∧
    NoDup all_tables.*1 ∧
    (∀ s ts, (s, ts) ∈ all_tables ↔ s ∈ schemas ∧ ts = tabs s ∧ ts ≠ []) ∧
    (NoDup schemas →
       all_tables
       = filter (λ p, p.2 ≠ []) ((λ s, (s, tabs s)) <$> schemas)).
Proof.
  intros Hcat (s0 & Hs0 & Hne0) Hsel.
  exists (record_tables tabs schemas []).
  destruct (record_tables_spec tabs schemas [] (listed_nil tabs))
    as [[Hnd Hval] Hmem].
  assert (∀ s ts, (s, ts) ∈ record_tables tabs schemas [] ↔
                  s ∈ schemas ∧ ts = tabs s ∧ ts ≠ []) as Hmem'.
  { intros s ts. rewrite Hmem. split; [|by right].
    by intros [?%elem_of_nil|?]. }
  rewrite (perform_ping_unfold _ _ _ _ _ Hname), ping_body_discovered.
  destruct schemas as [|s ss] eqn:Hss; [by apply elem_of_nil in Hs0|].
  rewrite <- Hss in *.
  destruct (collect_tables_stable c _ _ Hcat []
              (w2, log ++ [EvCreateClient url key;
                           EvSql schemas_query])%list)
    as ([w3 log3] & Hcol).
  step Hcol. unfold ping_first_table.
  destruct (record_tables tabs schemas []) as [|[s1 ts1] rest] eqn:Hrec.
  { exfalso. eapply elem_of_nil, Hmem'. eauto. }
  destruct (Hval s1 ts1) as [_ Hts1]; [by left|].
  destruct ts1 as [|t1 ts1]; [done|].
  destruct (Hsel (s1 ++ "." ++ t1) w3) as (w4 & Hsel').
  erewrite bind_Ok by reflexivity.
  step (call_Ok (EvTable (s1 ++ "." ++ t1)) _ _ log3 _ _ Hsel').
  step (getitem_run (B:=B) _ _ _
          (w4, (log3 ++ [EvTable (s1 ++ "." ++ t1)])%list) Hname).
  eexists. split; [reflexivity|]. split; [done|]. split; [done|].
  intros Hnds. rewrite <- Hrec.
  rewrite record_tables_NoDup; [done|done|].
  intros ? _ ?%elem_of_nil. done.
Qed.

End ProbeStages.

Section ProbeInputs.

Context (B : Supabase).
Variable str_other : json → string.

(** C9. The probe reads [name], [supabase_url] and [supabase_key] of its
    target and nothing else: two targets that agree on these three
    fields, whatever [table_name] is in either or whether it is there at
    all, give the same run against the same backend: the same result, the
    same final state, the same calls. *)
Theorem table_name_noninterference (conf1 conf2 : gmap string json) :
  conf1 !! "name" = conf2 !! "name" →
  conf1 !! "supabase_url" = conf2 !! "supabase_url" →
  conf1 !! "supabase_key" = conf2 !! "supabase_key" →
  ∀ σ, _perform_ping B str_other conf1 σ = _perform_ping B str_other conf2 σ.
Proof.
  intros Hn Hu Hk σ.
  unfold _perform_ping, ping_body, ping_first_table, getitem.
  by rewrite Hn, Hu, Hk.
Qed.

(** A probe of a complete target opens exactly one connection, to the
    endpoint of that target. *)
Lemma perform_ping_contacts conf :
  well_formed conf →
  ∀ σ, contacted (_perform_ping B str_other conf σ).2.2
       = (contacted σ.2 ++ [endpoint conf])%list.
Proof.
  intros ([name Hname] & [url Hurl] & [key Hkey] & _).
  unfold endpoint. rewrite Hurl, Hkey. simpl default.
  apply try_except_contacts.
  - intros σ. unfold ping_body.
    step (getitem_run (B:=B) _ _ _ σ Hurl).
    step (getitem_run (B:=B) _ _ _ σ Hkey).
    apply connect_contacts. intros c. chain (@quiet_bind B) with quiet.
  - intros e. chain (@quiet_bind B) with quiet.
Qed.

End ProbeInputs.

(* ===================================================================== *)
(** ** The lookups *)
(* ===================================================================== *)

Section Lookups.

Context (B : Supabase).

Lemma eq_str_spec v name : eq_str v name = true ↔ v = JStr name.
Proof.
  destruct v; simpl; try (split; [done|by intros [=]]).
  rewrite bool_decide_eq_true. split; [by intros ->|by intros [= ->]].
Qed.

Lemma get_conf_by_index_out confs idx σ :
  (idx < 0 ∨ idx >= Z.of_nat (length confs))%Z →
  _get_conf_by_index B confs idx σ
  = (Raise (HTTPException 404 ("index " ++ pretty idx ++ " 不存在")), σ).
Proof.
  intros H. unfold _get_conf_by_index. by rewrite bool_decide_eq_true_2.
Qed.

Lemma get_conf_by_index_in confs idx σ :
  (0 ≤ idx < Z.of_nat (length confs))%Z →
  ∃ conf, confs !! Z.to_nat idx = Some conf ∧
          _get_conf_by_index B confs idx σ = (Ok conf, σ).
Proof.
  intros H. unfold _get_conf_by_index.
  rewrite bool_decide_eq_false_2 by lia.
  destruct (lookup_lt_is_Some_2 confs (Z.to_nat idx)) as [conf Hc]; [lia|].
  exists conf. by rewrite Hc.
Qed.

(** The lookup by index answers with an element of the list or with the
    404, and does not touch the state. *)
Lemma get_conf_by_index_cases confs idx σ :
  (∃ conf, conf ∈ confs ∧ _get_conf_by_index B confs idx σ = (Ok conf, σ)) ∨
  (∃ detail, _get_conf_by_index B confs idx σ
             = (Raise (HTTPException 404 detail), σ)).
Proof.
  destruct (decide (idx < 0 ∨ idx >= Z.of_nat (length confs))%Z) as [H|H].
  - right. eexists. by apply get_conf_by_index_out.
  - left. destruct (get_conf_by_index_in confs idx σ) as (conf & Hc & Hr);
      [lia|].
    exists conf. split; [by eapply list_elem_of_lookup_2|done].
Qed.

Lemma get_conf_by_name_none confs name σ :
  Forall (λ conf, is_Some (conf !! "name")) confs →
  (∀ conf, conf ∈ confs → conf !! "name" ≠ Some (JStr name)) →
  _get_conf_by_name B confs name σ
  = (Raise (HTTPException 404 ("name '" ++ name ++ "' 未找到对应配置")), σ).
Proof.
  induction confs as [|c confs IH]; intros Hall Hno; simpl; [done|].
  inversion Hall as [|? ? [n Hn] Hrest]; subst.
  step (getitem_run (B:=B) _ _ _ σ Hn).
  destruct (eq_str n name) eqn:Heq.
  - apply eq_str_spec in Heq as ->. destruct (Hno c); [by left|done].
  - apply IH; [done|]. intros conf Hin. apply Hno. by right.
Qed.

Lemma get_conf_by_name_first confs name σ : ∀ i conf,
  Forall (λ conf, is_Some (conf !! "name")) confs →
  confs !! i = Some conf → conf !! "name" = Some (JStr name) →
  (∀ j c, (j < i)%nat → confs !! j = Some c →
          c !! "name" ≠ Some (JStr name)) →
  _get_conf_by_name B confs name σ = (Ok conf, σ).
Proof.
  induction confs as [|c confs IH]; intros i conf Hall Hi Hn Hfirst; [done|].
  inversion Hall as [|? ? [n Hcn] Hrest]; subst. simpl.
  step (getitem_run (B:=B) _ _ _ σ Hcn).
  destruct i as [|i]; simpl in Hi.
  - injection Hi as ->. rewrite Hn in Hcn. injection Hcn as <-.
    by rewrite (proj2 (eq_str_spec _ _) eq_refl).
  - destruct (eq_str n name) eqn:Heq.
    + apply eq_str_spec in Heq as ->.
      destruct (Hfirst 0%nat c); [lia|done|done].
    + apply (IH i); [done..|].
      intros j c' Hj Hc'. apply (Hfirst (S j)); [lia|done].
Qed.

(** The lookup by name answers with an element of the list or with the
    404, and does not touch the state. *)
Lemma get_conf_by_name_cases confs name σ :
  Forall (λ conf, is_Some (conf !! "name")) confs →
  (∃ conf, conf ∈ confs ∧ _get_conf_by_name B confs name σ = (Ok conf, σ)) ∨
  (∃ detail, _get_conf_by_name B confs name σ
             = (Raise (HTTPException 404 detail), σ)).
Proof.
  induction confs as [|c confs IH]; intros Hall; simpl.
  - right. by eexists.
  - inversion Hall as [|? ? [n Hn] Hrest]; subst.
    step (getitem_run (B:=B) _ _ _ σ Hn).
    destruct (eq_str n name).
    + left. exists c. split; [by left|done].
    + destruct (IH Hrest) as [(conf & Hin & ->)|[detail ->]].
      * left. exists conf. split; [by right|done].
      * right. by eexists.
Qed.

End Lookups.

(* ===================================================================== *)
(** ** The routes *)
(* ===================================================================== *)

Section RouteFacts.

Context (B : Supabase).
Variable str_other : json → string.
Variable iter_set : gset string → list string.

(** Past the guard, a handler runs on the typed list. *)
Lemma open_guard st confs (k : list (gmap string json) → M B response) σ :
  truthy (startup_error st) = false →
  typed_config_list (config_list st) = Some confs →
  (if truthy (startup_error st)
   then ret (JSONResponse 500 "error"
               ("Startup failed: " ++ str_opt (startup_error st)))
   else match typed_config_list (config_list st) with
        | None => stuck
        | Some config_list => k config_list
        end) σ = k confs σ.
Proof. by intros -> ->. Qed.

Lemma successes_cons r rs :
  successes (r :: rs) = ((if r.1 then 1 else 0) + successes rs)%nat.
Proof.
  unfold successes. destruct r as [[] msg].
  - by rewrite filter_cons_True.
  - by rewrite filter_cons_False.
Qed.

(** The loop of the route and the list of the results agree; every
    target is connected to once, in the order of the list. *)
Lemma ping_each_spec confs :
  Forall well_formed confs →
  ∀ acc σ, ∃ results σ',
    probe_each B str_other confs σ = (Ok results, σ') ∧
    length results = length confs ∧
    ping_each B str_other confs acc σ
      = (Ok (acc + successes results)%nat, σ') ∧
    contacted σ'.2 = (contacted σ.2 ++ (endpoint <$> confs))%list.
Proof.
  induction confs as [|conf confs IH]; intros Hall acc σ; simpl.
  - exists [], σ. unfold successes. simpl.
    rewrite Nat.add_0_r, app_nil_r. done.
  - inversion Hall as [|? ? Hconf Hrest]; subst.
    destruct (perform_ping_Ok B str_other conf σ (proj1 Hconf))
      as ([success msg] & σ1 & Hp).
    pose proof (perform_ping_contacts B str_other conf Hconf σ) as Hc.
    rewrite Hp in Hc. simpl in Hc.
    destruct (IH Hrest (if success then S acc else acc) σ1)
      as (results & σ' & Hpe & Hlen & Hloop & Hlog).
    exists ((success, msg) :: results), σ'.
    rewrite !(bind_Ok _ _ _ _ _ Hp), (bind_Ok _ _ _ _ _ Hpe).
    split; [done|]. split; [simpl; by rewrite Hlen|].
    split.
    + rewrite Hloop, successes_cons. simpl.
      destruct success; do 2 f_equal; lia.
    + rewrite Hlog, Hc, <- app_assoc. done.
Qed.

(** The last two lines of the single-target routes, on a target that has
    a name. *)
Lemma probe_response_answered conf σ :
  is_Some (conf !! "name") →
  answered ((let* (success, msg) := _perform_ping B str_other conf in
             ret (JSONResponse (if success : bool then 200 else 500)
                    (if success : bool then "success" else "error") msg))
              σ).1.
Proof.
  intros Hn.
  destruct (perform_ping_Ok B str_other conf σ Hn) as ([s m] & σ' & Hp).
  by step Hp.
Qed.

(** C1. After a start-up without error, [keepalive_all] runs the probe on
    every configured target, once each and in the order of the list (the
    results are those of [probe_each], and the log shows one connection
    per target, to its endpoint). Its response is 200 "ok" exactly when
    all probes succeeded, 500 "all_failure" exactly when none did, and
    500 "partial_failure" otherwise. *)
Theorem keepalive_all_aggregate decoded :
  startup_error (module_init iter_set decoded) = None →
  ∃ confs,
    config_list (module_init iter_set decoded) = JArr (JObj <$> confs) ∧
    ∀ σ, ∃ results σ' resp,
      probe_each B str_other confs σ = (Ok results, σ') ∧
      length results = length confs ∧
      contacted σ'.2 = (contacted σ.2 ++ (endpoint <$> confs))%list ∧
      keepalive_all B str_other (module_init iter_set decoded) σ
        = (Ok resp, σ') ∧
      (resp = JSONResponse 200 "success" "ok"
         ↔ successes results = length confs) ∧
      (resp = JSONResponse 500 "error" "all_failure"
         ↔ successes results = 0%nat) ∧
      (successes results ≠ length confs → successes results ≠ 0%nat →
         resp = JSONResponse 500 "error" "partial_failure").
Proof.
  intros Hnone.
  destruct (init_typed iter_set decoded Hnone)
    as (confs & Hcl & Htyped & Hne & Hall).
  exists confs. split; [done|]. intros σ.
  destruct (ping_each_spec confs Hall 0 σ)
    as (results & σ' & Hpe & Hlen & Hloop & Hlog).
  simpl in Hloop.
  assert (length confs ≠ 0%nat) as Hpos by (by destruct confs).
  assert (truthy (startup_error (module_init iter_set decoded)) = false)
    as Hg by (by rewrite Hnone).
  unfold keepalive_all. rewrite (open_guard _ confs _ σ Hg Htyped).
  step Hloop. exists results, σ'.
  destruct (decide (successes results = length confs)) as [Heq|Hneq].
  - rewrite bool_decide_eq_true_2 by done.
    eexists. split_and!; [done..| | |]; [split|split|]; try done; lia.
  - rewrite bool_decide_eq_false_2 by done.
    destruct (decide (0 < successes results)%nat) as [Hgt|Hle].
    + rewrite bool_decide_eq_true_2 by done.
      eexists. split_and!; [done..| | |]; [split|split|]; try done; lia.
    + rewrite bool_decide_eq_false_2 by done.
      eexists. split_and!; [done..| | |]; [split|split|]; try done; lia.
Qed.

(** C3. When start-up recorded an error [e], each of the three routes
    answers 500 with status "error" and message "Startup failed: {e}",
    and leaves the state as it was: the world untouched and no call to
    the client in the log. The globals are never written by a handler,
    so this holds for every request. *)
Theorem startup_failure_blocks_routes decoded e :
  startup_error (module_init iter_set decoded) = Some e →
  ∀ σ idx conf_name,
    let st := module_init iter_set decoded in
    let failed := JSONResponse 500 "error" ("Startup failed: " ++ e) in
    keepalive_all B str_other st σ = (Ok failed, σ) ∧
    keepalive_by_index B str_other st idx σ = (Ok failed, σ) ∧
    keepalive_by_name B str_other st conf_name σ = (Ok failed, σ).
Proof.
  intros He σ idx conf_name st failed.
  pose proof (init_error_truthy iter_set decoded) as Ht.
  rewrite bool_decide_eq_true_2 in Ht by (rewrite He; eauto).
  unfold keepalive_all, keepalive_by_index, keepalive_by_name.
  subst st. rewrite Ht, He. done.
Qed.

(** C5. Past the start-up guard: for an index below 0 or not below the
    length of the list, the lookup raises the [HTTPException] 404, the
    route passes it on and the client is sent the status 404; for an
    index within the list the lookup returns the element at that
    position. *)
Theorem get_conf_by_index_range st confs idx σ :
  truthy (startup_error st) = false →
  typed_config_list (config_list st) = Some confs →
  ((idx < 0 ∨ idx >= Z.of_nat (length confs))%Z →
     ∃ detail,
       _get_conf_by_index B confs idx σ
         = (Raise (HTTPException 404 detail), σ) ∧
       keepalive_by_index B str_other st idx σ
         = (Raise (HTTPException 404 detail), σ) ∧
       surfaced_status (keepalive_by_index B str_other st idx σ).1
         = Some 404%nat) ∧
  ((0 ≤ idx < Z.of_nat (length confs))%Z →
     ∃ conf, confs !! Z.to_nat idx = Some conf ∧
             _get_conf_by_index B confs idx σ = (Ok conf, σ)).
Proof.
  intros Hg Ht. split.
  - intros Hout. eexists.
    pose proof (get_conf_by_index_out B confs idx σ Hout) as Hidx.
    split; [exact Hidx|].
    unfold keepalive_by_index. rewrite (open_guard _ confs _ σ Hg Ht).
    by step_raise Hidx.
  - apply get_conf_by_index_in.
Qed.

(** C6. Past the start-up guard, on targets that all have a name: when no
    target has the name asked for, the lookup raises the [HTTPException]
    404, the route passes it on and the client is sent the status 404;
    when some target has it, the lookup returns the one of lowest index,
    whichever others share the name. *)
Theorem get_conf_by_name_lookup st confs name σ :
  truthy (startup_error st) = false →
  typed_config_list (config_list st) = Some confs →
  Forall (λ conf, is_Some (conf !! "name")) confs →
  ((∀ conf, conf ∈ confs → conf !! "name" ≠ Some (JStr name)) →
     ∃ detail,
       _get_conf_by_name B confs name σ
         = (Raise (HTTPException 404 detail), σ) ∧
       keepalive_by_name B str_other st name σ
         = (Raise (HTTPException 404 detail), σ) ∧
       surfaced_status (keepalive_by_name B str_other st name σ).1
         = Some 404%nat) ∧
  (∀ i conf,
     confs !! i = Some conf → conf !! "name" = Some (JStr name) →
     (∀ j c, (j < i)%nat → confs !! j = Some c →
             c !! "name" ≠ Some (JStr name)) →
     _get_conf_by_name B confs name σ = (Ok conf, σ)).
Proof.
  intros Hg Ht Hall. split.
  - intros Hno. eexists.
    pose proof (get_conf_by_name_none B confs name σ Hall Hno) as Hlk.
    split; [exact Hlk|].
    unfold keepalive_by_name. rewrite (open_guard _ confs _ σ Hg Ht).
    by step_raise Hlk.
  - intros i conf. by apply get_conf_by_name_first.
Qed.

End RouteFacts.

Section Invariant.

Context (B : Supabase).
Variable str_other : json → string.
Variable iter_set : gset string → list string.

(** C10. When initialisation leaves [startup_error] at [None],
    [config_list] is a non-empty list of objects that each have the
    four keys [name], [supabase_url], [supabase_key] and [table_name].
    The guard of the routes is then open, every configuration a route
    hands to the probe (an element of the list, or the result of one of
    the two lookups) has the key [name], and so no route ends in an
    exception of the probe: each answers with a response or with the 404
    of its lookup. *)
Theorem init_invariant decoded :
  startup_error (module_init iter_set decoded) = None →
  let st := module_init iter_set decoded in
  ∃ confs,
    config_list st = JArr (JObj <$> confs) ∧
    confs ≠ [] ∧ Forall well_formed confs ∧
    truthy (startup_error st) = false ∧
    (∀ conf,
       (conf ∈ confs ∨
        (∃ idx σ σ', _get_conf_by_index B confs idx σ = (Ok conf, σ')) ∨
        (∃ name σ σ', _get_conf_by_name B confs name σ = (Ok conf, σ'))) →
       is_Some (conf !! "name")) ∧
    (∀ σ idx name,
       answered (keepalive_all B str_other st σ).1 ∧
       answered (keepalive_by_index B str_other st idx σ).1 ∧
       answered (keepalive_by_name B str_other st name σ).1).
Proof.
  intros Hnone st. subst st.
  destruct (init_typed iter_set decoded Hnone)
    as (confs & Hcl & Htyped & Hne & Hall).
  assert (truthy (startup_error (module_init iter_set decoded)) = false)
    as Hg by (by rewrite Hnone).
  assert (∀ conf, conf ∈ confs → is_Some (conf !! "name")) as Hnames.
  { intros conf Hin. rewrite Forall_forall in Hall.
    by destruct (Hall _ Hin). }
  assert (Forall (λ conf, is_Some (conf !! "name")) confs) as Hall'.
  { by apply Forall_forall. }
  exists confs. split_and!; try done.
  - intros conf [Hin|[(idx & σ & σ' & H)|(name & σ & σ' & H)]].
    + by apply Hnames.
    + destruct (get_conf_by_index_cases B confs idx σ)
        as [(c & Hin & Hc)|[detail Hc]]; rewrite Hc in H; [|done].
      injection H as <- _. by apply Hnames.
    + destruct (get_conf_by_name_cases B confs name σ Hall')
        as [(c & Hin & Hc)|[detail Hc]]; rewrite Hc in H; [|done].
      injection H as <- _. by apply Hnames.
  - intros σ idx name. split_and!.
    + unfold keepalive_all. rewrite (open_guard _ _ confs _ σ Hg Htyped).
      destruct (ping_each_spec B str_other confs Hall 0 σ)
        as (results & σ' & _ & _ & Hloop & _).
      step Hloop. by repeat case_bool_decide.
    + unfold keepalive_by_index.
      rewrite (open_guard _ _ confs _ σ Hg Htyped).
      destruct (get_conf_by_index_cases B confs idx σ)
        as [(c & Hin & Hc)|[detail Hc]].
      * step Hc. apply probe_response_answered. by apply Hnames.
      * by step_raise Hc.
    + unfold keepalive_by_name.
      rewrite (open_guard _ _ confs _ σ Hg Htyped).
      destruct (get_conf_by_name_cases B confs name σ Hall')
        as [(c & Hin & Hc)|[detail Hc]].
      * step Hc. apply probe_response_answered. by apply Hnames.
      * by step_raise Hc.
Qed.

End Invariant.

(* ===================================================================== *)
(** ** The statements at work on the test double *)
(* ===================================================================== *)

Lemma demo_bare_stable : stable_catalog demo_bare () ["empty"] (λ _, []).
Proof.
  intros s w Hs. apply list_elem_of_singleton in Hs as ->.
  eexists _, _. split; reflexivity.
Defined.

Lemma demo_stable : stable_catalog demo () ["public"; "empty"] demo_tabs.
Proof.
  intros s w Hs. apply elem_of_cons in Hs as [->|Hs].
  - eexists _, _. split; reflexivity.
  - apply list_elem_of_singleton in Hs as ->.
    eexists _, _. split; reflexivity.
Defined.

Lemma demo_names :
  Forall (λ conf : gmap string json, is_Some (conf !! "name"))
    [demo_a; demo_b; demo_b2].
Proof. repeat constructor; eexists; reflexivity. Defined.

(** Three configured targets, all reachable: every probe succeeds. *)
Lemma keepalive_all_aggregate_witness :
  startup_error (module_init elements demo_decoded) = None ∧
  ∃ confs,
    config_list (module_init elements demo_decoded) = JArr (JObj <$> confs) ∧
    ∃ results σ' resp,
      probe_each demo str_plain confs (0%nat, []) = (Ok results, σ') ∧
      keepalive_all demo str_plain (module_init elements demo_decoded)
        (0%nat, []) = (Ok resp, σ') ∧
      (resp = JSONResponse 200 "success" "ok"
         ↔ successes results = length confs).
Proof.
  split; [reflexivity|].
  destruct (keepalive_all_aggregate demo str_plain elements demo_decoded
              eq_refl) as (confs & Hc & Hrun).
  exists confs. split; [exact Hc|].
  destruct (Hrun (0%nat, [])) as (rs & σ' & resp & H1 & _ & _ & H2 & H3 & _).
  exists rs, σ', resp. auto.
Defined.

(** The scenarios of the aggregate: the endpoint of [b] down, and all
    three down. *)
Example keepalive_all_partial_failure :
  (keepalive_all (demo_outage ["https://b.supabase.co"]) str_plain
     (module_init elements demo_decoded) (0%nat, [])).1
  = Ok (JSONResponse 500 "error" "partial_failure").
Proof. reflexivity. Qed.

Example keepalive_all_all_failure :
  keepalive_all
    (demo_outage ["https://a.supabase.co"; "https://b.supabase.co";
                  "https://b2.supabase.co"]) str_plain
    (module_init elements demo_decoded) (0%nat, [])
  = (Ok (JSONResponse 500 "error" "all_failure"),
     (3%nat,
      [EvCreateClient (JStr "https://a.supabase.co") (JStr "key-a");
       EvCreateClient (JStr "https://b.supabase.co") (JStr "key-b");
       EvCreateClient (JStr "https://b2.supabase.co") (JStr "key-b2")])).
Proof. reflexivity. Qed.

(** A probe of the first target. *)
Lemma perform_ping_never_raises_witness :
  demo_a !! "name" = Some (JStr "a") ∧
  ∃ success msg σ',
    _perform_ping demo str_plain demo_a (0%nat, []) = (Ok (success, msg), σ').
Proof.
  split; [reflexivity|].
  destruct (perform_ping_never_raises demo str_plain demo_a (JStr "a")
              eq_refl (0%nat, [])) as (s & m & σ' & H & _).
  exists s, m, σ'. exact H.
Defined.

(** [SUPABASE_CONFIG='{}']: an object where an array is expected. *)
Lemma startup_failure_blocks_routes_witness :
  startup_error (module_init elements (inr (JObj ∅)))
    = Some format_error_msg ∧
  keepalive_all demo str_plain (module_init elements (inr (JObj ∅)))
    (0%nat, [])
  = (Ok (JSONResponse 500 "error" ("Startup failed: " ++ format_error_msg)),
     (0%nat, [])).
Proof.
  split; [reflexivity|].
  exact (proj1 (startup_failure_blocks_routes demo str_plain elements
                  (inr (JObj ∅)) format_error_msg eq_refl
                  (0%nat, []) 0%Z "")).
Defined.

(** Index 5 of three targets, and index 1. *)
Lemma get_conf_by_index_range_witness :
  surfaced_status
    (keepalive_by_index demo str_plain (module_init elements demo_decoded)
       5 (0%nat, [])).1 = Some 404%nat ∧
  _get_conf_by_index demo [demo_a; demo_b; demo_b2] 1 (0%nat, [])
    = (Ok demo_b, (0%nat, [])).
Proof.
  split.
  - destruct (proj1 (get_conf_by_index_range demo str_plain
                       (module_init elements demo_decoded)
                       [demo_a; demo_b; demo_b2] 5 (0%nat, [])
                       eq_refl eq_refl))
      as (detail & _ & _ & H); [simpl; lia|exact H].
  - destruct (proj2 (get_conf_by_index_range demo str_plain
                       (module_init elements demo_decoded)
                       [demo_a; demo_b; demo_b2] 1 (0%nat, [])
                       eq_refl eq_refl))
      as (conf & Hc & H); [simpl; lia|].
    injection Hc as <-. exact H.
Defined.

(** The name [c] of no target, and the name [b] of the second and of the
    third: the second is returned. *)
Lemma get_conf_by_name_lookup_witness :
  surfaced_status
    (keepalive_by_name demo str_plain (module_init elements demo_decoded)
       "c" (0%nat, [])).1 = Some 404%nat ∧
  _get_conf_by_name demo [demo_a; demo_b; demo_b2] "b" (0%nat, [])
    = (Ok demo_b, (0%nat, [])).
Proof.
  split.
  - destruct (proj1 (get_conf_by_name_lookup demo str_plain
                       (module_init elements demo_decoded)
                       [demo_a; demo_b; demo_b2] "c" (0%nat, [])
                       eq_refl eq_refl demo_names))
      as (detail & _ & _ & H); [|exact H].
    intros conf Hin. apply elem_of_cons in Hin as [->|Hin]; [discriminate|].
    apply elem_of_cons in Hin as [->|Hin]; [discriminate|].
    apply list_elem_of_singleton in Hin as ->. discriminate.
  - apply (proj2 (get_conf_by_name_lookup demo str_plain
                    (module_init elements demo_decoded)
                    [demo_a; demo_b; demo_b2] "b" (0%nat, [])
                    eq_refl eq_refl demo_names) 1%nat demo_b);
      [reflexivity|reflexivity|].
    intros j c Hj Hc. destruct j as [|j]; [|lia].
    injection Hc as <-. discriminate.
Defined.

(** A backend without any namespace, and one whose only namespace has no
    table. *)
Lemma ping_catalog_diagnostics_witness :
  _perform_ping demo_blank str_plain demo_a (0%nat, [])
  = (Ok (false, "No schemas found for a"),
     (2%nat, [EvCreateClient (JStr "https://a.supabase.co") (JStr "key-a");
              EvSql schemas_query])) ∧
  ∃ σ', _perform_ping demo_bare str_plain demo_a (0%nat, [])
        = (Ok (false, "No tables found in any schema for a"), σ').
Proof.
  split.
  - apply (proj1 (ping_catalog_diagnostics demo_blank str_plain demo_a
                    (JStr "https://a.supabase.co") (JStr "key-a") (JStr "a")
                    0%nat [] eq_refl eq_refl eq_refl () 1%nat eq_refl
                    [] 2%nat [] eq_refl eq_refl)).
    reflexivity.
  - apply (proj2 (ping_catalog_diagnostics demo_bare str_plain demo_a
                    (JStr "https://a.supabase.co") (JStr "key-a") (JStr "a")
                    0%nat [] eq_refl eq_refl eq_refl () 1%nat eq_refl
                    [name_row "schema_name" "empty"] 2%nat ["empty"]
                    eq_refl eq_refl)).
    + discriminate.
    + exact demo_bare_stable.
Defined.

(** The namespaces [public], with the table [t1], and [empty], with
    none. *)
Lemma ping_success_message_witness :
  ∃ all_tables σ',
    _perform_ping demo str_plain demo_a (0%nat, [])
    = (Ok (true, "Pinged a (schemas and tables: "
                 ++ schema_info all_tables ++ ") successfully"), σ') ∧
    all_tables = [("public", ["t1"])].
Proof.
  destruct (ping_success_message demo str_plain demo_a
              (JStr "https://a.supabase.co") (JStr "key-a") (JStr "a")
              0%nat [] eq_refl eq_refl eq_refl () 1%nat eq_refl
              [name_row "schema_name" "public"; name_row "schema_name" "empty"]
              2%nat ["public"; "empty"] eq_refl eq_refl
              demo_tabs demo_stable)
    as (all_tables & σ' & Hrun & _ & _ & Horder).
  - exists "public". split; [by left|discriminate].
  - intros t w'. by eexists.
  - exists all_tables, σ'. split; [exact Hrun|].
    rewrite Horder; [reflexivity|].
    apply NoDup_cons. split.
    + intros Hin. apply list_elem_of_singleton in Hin. discriminate.
    + apply NoDup_singleton.
Defined.

(** C8 as worded fails on the backend above: the namespace query
    discovers [public] and [empty], the probe succeeds, and its message
    lists [public] only; it is not the message with every discovered
    namespace in it, and does not mention [empty] at all. *)
Lemma success_message_omits_empty_namespace :
  (sql_execute demo () schemas_query 1%nat).1
    = inr [name_row "schema_name" "public"; name_row "schema_name" "empty"] ∧
  (_perform_ping demo str_plain demo_a (0%nat, [])).1
    = Ok (true, "Pinged a (schemas and tables: public: [t1]) successfully") ∧
  "Pinged a (schemas and tables: public: [t1]) successfully"
    ≠ "Pinged a (schemas and tables: "
      ++ listing_of_all demo_tabs ["public"; "empty"] ++ ") successfully" ∧
  contains "empty"
    "Pinged a (schemas and tables: public: [t1]) successfully" = false.
Proof.
  split_and!; [reflexivity|reflexivity| |reflexivity].
  apply String.eqb_neq. reflexivity.
Qed.

(** The first target, with and without its [table_name]. *)
Lemma table_name_noninterference_witness :
  _perform_ping demo str_plain demo_a (0%nat, [])
  = _perform_ping demo str_plain (delete "table_name" demo_a) (0%nat, []).
Proof.
  apply table_name_noninterference; reflexivity.
Defined.

(** Three complete targets. *)
Lemma init_invariant_witness :
  startup_error (module_init elements demo_decoded) = None ∧
  ∃ confs,
    config_list (module_init elements demo_decoded) = JArr (JObj <$> confs) ∧
    Forall well_formed confs ∧
    answered (keepalive_all demo str_plain
                (module_init elements demo_decoded) (0%nat, [])).1.
Proof.
  split; [reflexivity|].
  destruct (init_invariant demo str_plain elements demo_decoded eq_refl)
    as (confs & Hc & _ & Hall & _ & _ & Hans).
  exists confs. split; [exact Hc|]. split; [exact Hall|].
  exact (proj1 (Hans (0%nat, []) 0%Z "")).
Defined.

(* ===================================================================== *)
(** ** More on module initialisation *)
(* ===================================================================== *)

Section StartupMore.

Variable iter_set : gset string → list string.

Lemma check_fields_first_non_object
    (pre : list (gmap string json)) v rest idx :
  Forall well_formed pre → as_dict v = None →
  check_fields iter_set idx ((JObj <$> pre) ++ v :: rest)%list
  = Some (AttributeError
            ("'" ++ type_name v ++ "' object has no attribute 'keys'")).
Proof.
  revert idx. induction pre as [|p pre IH]; intros idx Hpre Hv; simpl.
  - by destruct v.
  - inversion Hpre as [|? ? Hp Hrest]; subst.
    apply required_fields_spec in Hp. rewrite decide_True by done.
    by apply IH.
Qed.

(** X1. Initialisation records no error exactly when the decoded value is
    a non-empty list whose elements are all objects with the four keys
    [name], [supabase_url], [supabase_key] and [table_name]. Further keys
    and the types of the values are not looked at. *)
Theorem init_accepts_iff decoded :
  startup_error (module_init iter_set decoded) = None ↔
  ∃ confs, decoded = inr (JArr (JObj <$> confs)) ∧
           confs ≠ [] ∧ Forall well_formed confs.
Proof.
  split.
  - intros Hnone.
    destruct (init_typed iter_set decoded Hnone)
      as (confs & Hcl & _ & Hne & Hall).
    exists confs. split; [|done].
    destruct decoded as [e|v]; [done|]. simpl in Hcl. by rewrite Hcl.
  - intros (confs & -> & Hne & Hall). simpl.
    destruct confs as [|c confs]; [done|].
    change (JObj c :: (JObj <$> confs)) with (JObj <$> (c :: confs)).
    by rewrite check_fields_complete.
Qed.

(** X2. On a list that starts with complete objects followed by an object
    lacking a required key, the recorded error is the message of line 36
    with the index of that object and the keys it lacks (the required keys
    that are not among its keys, of which there is at least one), in the
    order the set is iterated in. The elements after it are not looked
    at. *)
Theorem init_first_incomplete_object (pre : list (gmap string json)) m rest :
  Forall well_formed pre → ¬ well_formed m →
  startup_error
    (module_init iter_set
       (inr (JArr ((JObj <$> pre) ++ JObj m :: rest)%list)))
  = Some (missing_error_msg (length pre)
            (iter_set (required_fields ∖ dom m))) ∧
  required_fields ∖ dom m ≠ ∅ ∧
  ∀ k, k ∈ required_fields ∖ dom m ↔ k ∈ required_fields ∧ m !! k = None.
Proof.
  intros Hpre Hm. split_and!.
  - simpl. destruct ((JObj <$> pre) ++ JObj m :: rest)%list eqn:Hl.
    { by destruct pre. }
    rewrite <- Hl.
    by rewrite (check_fields_first_missing iter_set pre m rest 0 Hpre Hm).
  - by rewrite required_fields_spec.
  - intros k. rewrite elem_of_difference, not_elem_of_dom. done.
Qed.

(** X3. On a list that starts with complete objects followed by an element
    that is not an object, [conf.keys()] raises and the recorded error is
    "'{type}' object has no attribute 'keys'", with the Python type name
    of that element. The elements after it are not looked at. *)
Theorem init_first_non_object (pre : list (gmap string json)) v rest :
  Forall well_formed pre → as_dict v = None →
  startup_error
    (module_init iter_set (inr (JArr ((JObj <$> pre) ++ v :: rest)%list)))
  = Some ("'" ++ type_name v ++ "' object has no attribute 'keys'").
Proof.
  intros Hpre Hv. simpl.
  destruct ((JObj <$> pre) ++ v :: rest)%list eqn:Hl.
  { by destruct pre. }
  rewrite <- Hl.
  by rewrite (check_fields_first_non_object pre v rest 0 Hpre Hv).
Qed.


End StartupMore.

Lemma demo_a_well_formed : well_formed demo_a.
Proof. repeat split; eexists; reflexivity. Defined.

Lemma demo_a_nameless_incomplete : ¬ well_formed (delete "name" demo_a).
Proof. intros [[v Hv] _]. discriminate. Defined.

(** A complete target, then one without [name], then a number. *)
Lemma init_first_incomplete_object_witness :
  startup_error
    (module_init elements
       (inr (JArr [JObj demo_a; JObj (delete "name" demo_a); JInt 7])))
  = Some (missing_error_msg 1
            (elements (required_fields ∖ dom (delete "name" demo_a)))).
Proof.
  exact (proj1 (init_first_incomplete_object elements [demo_a]
                  (delete "name" demo_a) [JInt 7]
                  (Forall_cons_2 _ _ _ demo_a_well_formed (Forall_nil_2 _))
                  demo_a_nameless_incomplete)).
Defined.

(** A complete target, then [null], then a string. *)
Lemma init_first_non_object_witness :
  startup_error
    (module_init elements (inr (JArr [JObj demo_a; JNull; JStr "x"])))
  = Some "'NoneType' object has no attribute 'keys'".
Proof.
  exact (init_first_non_object elements [demo_a] JNull [JStr "x"]
           (Forall_cons_2 _ _ _ demo_a_well_formed (Forall_nil_2 _))
           eq_refl).
Defined.

(* ===================================================================== *)
(** ** More on the probe *)
(* ===================================================================== *)

Section DictKeys.

Context {V : Type}.
Implicit Types (d : odict V) (k : string) (v : V).

Lemma dict_set_keys_in k v d : k ∈ d.*1 → (dict_set k v d).*1 = d.*1.
Proof.
  induction d as [|[k' v'] d IH]; intros Hin; [by apply elem_of_nil in Hin|].
  simpl. destruct (decide (k' = k)) as [->|Hne]; [done|].
  rewrite !fmap_cons. f_equal. apply IH.
  rewrite fmap_cons in Hin. apply elem_of_cons in Hin as [?|?]; [|done].
  simpl in *. congruence.
Qed.

Lemma dict_set_keys_spec k v d s :
  s ∈ (dict_set k v d).*1 ↔ s = k ∨ s ∈ d.*1.
Proof.
  destruct (decide (k ∈ d.*1)) as [Hin|Hnin].
  - rewrite dict_set_keys_in by done. split; [by right|].
    by intros [->|?].
  - rewrite dict_set_fresh by done.
    rewrite fmap_app, elem_of_app. simpl.
    rewrite list_elem_of_singleton. tauto.
Qed.

Lemma dict_set_Forall (P : string * V → Prop) k v d :
  Forall P d → P (k, v) → Forall P (dict_set k v d).
Proof.
  intros Hd Hkv. induction Hd as [|[k' v'] d Hp Hd IH]; simpl.
  - by constructor.
  - destruct (decide (k' = k)); constructor; done.
Qed.

Lemma dict_set_NoDup k v d : NoDup d.*1 → NoDup (dict_set k v d).*1.
Proof.
  intros Hnd. destruct (decide (k ∈ d.*1)) as [Hin|Hnin].
  - by rewrite dict_set_keys_in.
  - rewrite dict_set_fresh by done. rewrite fmap_app.
    apply NoDup_app. split; [done|]. split; [|apply NoDup_singleton].
    intros x Hx ->%list_elem_of_singleton. done.
Qed.

End DictKeys.

Lemma record_tables_head tabs schemas : ∀ k acc,
  ∃ acc', record_tables tabs schemas ((k, tabs k) :: acc)
          = (k, tabs k) :: acc'.
Proof.
  induction schemas as [|x schemas IH]; intros k acc; simpl; [by eexists|].
  destruct (tabs x) as [|t ts] eqn:Hx; [apply IH|].
  destruct (decide (k = x)) as [->|Hne].
  - rewrite <- Hx. apply IH.
  - apply IH.
Qed.

(** The first entry of the dictionary is the first namespace of the
    catalog that has a table. *)
Lemma record_tables_first tabs pre s post :
  Forall (λ x, tabs x = []) pre → tabs s ≠ [] →
  ∃ rest, record_tables tabs (pre ++ s :: post) [] = (s, tabs s) :: rest.
Proof.
  intros Hpre Hs. induction Hpre as [|x pre Hx Hpre IH]; simpl.
  - destruct (tabs s) as [|t ts] eqn:Hts; [done|]. rewrite <- Hts.
    apply record_tables_head.
  - by rewrite Hx.
Qed.

Section ProbeMore.

Context (B : Supabase).
Variable str_other : json → string.

Lemma column_missing col rows σ :
  mapM (λ r : row, r !! col) rows = None →
  column B col rows σ = (Raise (KeyError col), σ).
Proof.
  induction rows as [|r rows IH]; simpl; [done|].
  unfold mbind, option_bind at 1. unfold bind, getitem.
  destruct (r !! col) as [v|] eqn:Hv; [|done]. simpl.
  destruct (mapM _ rows) as [vs|]; [done|]. intros _.
  by rewrite IH.
Qed.

Lemma collect_tables_app c l1 l2 : ∀ acc σ,
  collect_tables B c (l1 ++ l2) acc σ
  = (let* acc' := collect_tables B c l1 acc in collect_tables B c l2 acc') σ.
Proof.
  induction l1 as [|x l1 IH]; intros acc σ; simpl; [done|].
  unfold bind.
  destruct (call _ _ σ) as [[rows|e|] σ1]; [|done|done].
  destruct (column B "table_name" rows σ1) as [[tables|e|] σ2]; [|done|done].
  rewrite IH. reflexivity.
Qed.

(** Against a catalog that answers [tabs], the loop asks for the tables of
    every namespace, in order, and nothing else. *)
Lemma collect_tables_stable_log c tabs schemas :
  stable_catalog B c schemas tabs →
  ∀ acc w log, ∃ w',
    collect_tables B c schemas acc (w, log)
    = (Ok (record_tables tabs schemas acc),
       (w', log ++ table_queries schemas)%list).
Proof.
  induction schemas as [|s schemas IH]; intros Hcat acc w log; simpl.
  - exists w. by rewrite app_nil_r.
  - destruct (Hcat s w) as (rows & w' & Hq & Hrows); [by left|].
    step (call_Ok (EvSql (tables_query s)) _ _ log _ _ Hq).
    step (column_Some B _ _ _ (w', (log ++ [EvSql (tables_query s)])%list)
            Hrows).
    assert (stable_catalog B c schemas tabs) as Hcat'.
    { intros s' w0 Hs'. apply Hcat. by right. }
    destruct (IH Hcat'
                (match tabs s with
                 | [] => acc
                 | _ => dict_set s (tabs s) acc
                 end)
                w' (log ++ [EvSql (tables_query s)])%list) as (w'' & Hrun).
    exists w''. rewrite <- app_assoc in Hrun. simpl in Hrun.
    destruct (tabs s); exact Hrun.
Qed.

(** X5. On a target without the key [name] the probe raises
    [KeyError('name')], whatever the backend does: every return of the body
    formats the name, and so does the handler of the [try]. *)
Theorem perform_ping_without_name conf :
  conf !! "name" = None →
  ∀ σ, ∃ σ', _perform_ping B str_other conf σ = (Raise (KeyError "name"), σ').
Proof.
  intros Hname σ. unfold _perform_ping, try_except.
  pose proof (total_ping_body B str_other conf σ) as Htot.
  destruct (ping_body B str_other conf σ) as [[[success msg]|e|] σ1] eqn:Hb.
  - apply ping_body_Ok in Hb as (name & Hn & _). congruence.
  - unfold bind, getitem. rewrite Hname. by eexists.
  - done.
Qed.

(** X6. On a target that has a name but no [supabase_url], the probe
    returns [False] with "Error pinging {name}: 'supabase_url'" and makes
    no call to the client; with a [supabase_url] but no [supabase_key], the
    same with 'supabase_key'. *)
Theorem ping_missing_endpoint conf name σ :
  conf !! "name" = Some name →
  (conf !! "supabase_url" = None →
     _perform_ping B str_other conf σ
     = (Ok (false, "Error pinging " ++ py_str str_other name
                   ++ ": 'supabase_url'"), σ)) ∧
  (is_Some (conf !! "supabase_url") → conf !! "supabase_key" = None →
     _perform_ping B str_other conf σ
     = (Ok (false, "Error pinging " ++ py_str str_other name
                   ++ ": 'supabase_key'"), σ)).
Proof.
  intros Hname. rewrite (perform_ping_unfold _ _ _ _ _ Hname).
  unfold ping_body, bind, getitem. split.
  - by intros ->.
  - intros [url ->] ->. done.
Qed.

(** X7. A probe of a target that has [supabase_url] and [supabase_key]
    opens exactly one connection, with these two values, whatever the
    backend answers and however the probe ends. *)
Theorem probe_opens_one_connection conf url key :
  conf !! "supabase_url" = Some url → conf !! "supabase_key" = Some key →
  ∀ σ, contacted (_perform_ping B str_other conf σ).2.2
       = (contacted σ.2 ++ [(url, key)])%list.
Proof.
  intros Hurl Hkey. apply try_except_contacts.
  - intros σ. unfold ping_body.
    step (getitem_run (B:=B) _ _ _ σ Hurl).
    step (getitem_run (B:=B) _ _ _ σ Hkey).
    apply connect_contacts. intros c. chain (@quiet_bind B) with quiet.
  - intros e. chain (@quiet_bind B) with quiet.
Qed.

(** X8. The loop of lines 63-72 keeps [all_tables] in shape, whatever the
    backend answers: when it ends, every key is there once, every entry
    has at least one table, the keys it started with are still there, and
    every other key is one of the namespaces it went through. *)
Theorem collect_tables_invariant c schemas : ∀ acc σ d σ',
  collect_tables B c schemas acc σ = (Ok d, σ') →
  NoDup acc.*1 → Forall (λ p, p.2 ≠ []) acc →
  NoDup d.*1 ∧ Forall (λ p, p.2 ≠ []) d ∧
  (∀ s, s ∈ acc.*1 → s ∈ d.*1) ∧
  (∀ s, s ∈ d.*1 → s ∈ acc.*1 ∨ s ∈ schemas).
Proof.
  induction schemas as [|x schemas IH];
    intros acc σ d σ' H Hnd Hne; simpl in H.
  - injection H as <- _. split_and!; auto.
  - apply bind_Ok_inv in H as (rows & σ1 & _ & H).
    apply bind_Ok_inv in H as (tables & σ2 & _ & H).
    apply IH in H as (Hnd' & Hne' & Hkeep & Hin).
    + split_and!; [done|done| |].
      * intros s Hs. apply Hkeep. destruct tables; [done|].
        apply dict_set_keys_spec. by right.
      * intros s Hs. destruct (Hin s Hs) as [Hs'|Hs']; [|right; by right].
        destruct tables; [by left|].
        apply dict_set_keys_spec in Hs' as [->|?];
          [right; by left|by left].
    + destruct tables; [done|]. by apply dict_set_NoDup.
    + destruct tables; [done|]. by apply dict_set_Forall.
Qed.

End ProbeMore.

Section CallSequence.

Context (B : Supabase).
Variable str_other : json → string.

Variables (conf : gmap string json) (url key name : json).
Variables (w : world B) (log : list event).
Variables (c : client B) (w1 : world B).
Variables (rows : list row) (w2 : world B).
Hypothesis Hurl : conf !! "supabase_url" = Some url.
Hypothesis Hkey : conf !! "supabase_key" = Some key.
Hypothesis Hname : conf !! "name" = Some name.
Hypothesis Hcreate : create_client B url key w = (inr c, w1).
Hypothesis Hquery : sql_execute B c schemas_query w1 = (inr rows, w2).

(** X11. When the connection and the namespace query succeed but some row
    of the answer has no column [schema_name], the probe returns [False]
    with "Error pinging {name}: 'schema_name'" and stops there: the log
    shows the connection and the namespace query only. *)
Theorem ping_malformed_schema_rows :
  mapM (λ r : row, r !! "schema_name") rows = None →
  _perform_ping B str_other conf (w, log)
  = (Ok (false, "Error pinging " ++ py_str str_other name
                ++ ": 'schema_name'"),
     (w2, log ++ [EvCreateClient url key; EvSql schemas_query])%list).
Proof.
  intros Hrows. rewrite (perform_ping_unfold _ _ _ _ _ Hname).
  unfold ping_body.
  step (getitem_run (B:=B) _ _ _ (w, log) Hurl).
  step (getitem_run (B:=B) _ _ _ (w, log) Hkey).
  step (call_Ok (EvCreateClient url key) _ _ log _ _ Hcreate).
  step (call_Ok (EvSql schemas_query) _ _
          (log ++ [EvCreateClient url key])%list _ _ Hquery).
  step_raise (column_missing B "schema_name" rows
                (w2, ((log ++ [EvCreateClient url key])
                        ++ [EvSql schemas_query])%list) Hrows).
  by rewrite <- app_assoc.
Qed.

Variable schemas : list string.
Hypothesis Hrows : mapM (λ r : row, r !! "schema_name") rows = Some schemas.

(** X9. The calls of a successful probe, against a catalog that answers
    [tabs]: one connection, the namespace query, the table query of every
    discovered namespace in catalog order, then a single read, of the first
    table of the first namespace that has one. *)
Theorem ping_success_calls tabs pre s1 post t1 ts1 :
  schemas = (pre ++ s1 :: post)%list →
  Forall (λ s, tabs s = []) pre → tabs s1 = t1 :: ts1 →
  stable_catalog B c schemas tabs →
  (∀ t w', ∃ w'', table_select B c t w' = (inr (), w'')) →
  ∃ msg w',
    _perform_ping B str_other conf (w, log)
    = (Ok (true, msg),
       (w', log ++ [EvCreateClient url key; EvSql schemas_query]
                ++ table_queries schemas
                ++ [EvTable (s1 ++ "." ++ t1)])%list).
Proof.
  intros Hs Hpre Ht1 Hcat Hsel.
  destruct (record_tables_first tabs pre s1 post Hpre) as (rest & Hrec);
    [by rewrite Ht1|].
  rewrite <- Hs, Ht1 in Hrec.
  rewrite (perform_ping_unfold _ _ _ _ _ Hname).
  rewrite (ping_body_discovered B str_other conf url key name w log
             Hurl Hkey Hname c w1 Hcreate rows w2 schemas Hquery Hrows).
  destruct schemas as [|s ss] eqn:Hss; [by destruct pre|].
  rewrite <- Hss in *.
  destruct (collect_tables_stable_log B c _ _ Hcat [] w2
              (log ++ [EvCreateClient url key; EvSql schemas_query])%list)
    as (w3 & Hcol).
  step Hcol. rewrite Hrec. unfold ping_first_table.
  destruct (Hsel (s1 ++ "." ++ t1) w3) as (w4 & Hsel').
  erewrite bind_Ok by reflexivity.
  step (call_Ok (EvTable (s1 ++ "." ++ t1)) _ _
          ((log ++ [EvCreateClient url key; EvSql schemas_query])
             ++ table_queries schemas)%list _ _ Hsel').
  step (getitem_run (B:=B) _ _ _
          (w4, (((log ++ [EvCreateClient url key; EvSql schemas_query])
                   ++ table_queries schemas)
                  ++ [EvTable (s1 ++ "." ++ t1)])%list) Hname).
  eexists _, w4. unfold ret. f_equal. f_equal.
  by rewrite <- !app_assoc.
Qed.

(** X10. When the table query of a namespace raises [e], the namespaces
    before it having been answered, the probe returns [False] with
    "Error pinging {name}: {e}" and stops there: the namespaces after it
    are not asked for, and no table is read. *)
Theorem ping_stops_at_failed_table_query tabs pre s post e :
  schemas = (pre ++ s :: post)%list →
  stable_catalog B c pre tabs →
  (∀ w', ∃ w'', sql_execute B c (tables_query s) w' = (inl e, w'')) →
  ∃ w',
    _perform_ping B str_other conf (w, log)
    = (Ok (false, "Error pinging " ++ py_str str_other name ++ ": "
                  ++ str_exn e),
       (w', log ++ [EvCreateClient url key; EvSql schemas_query]
                ++ table_queries pre
                ++ [EvSql (tables_query s)])%list).
Proof.
  intros Hs Hcat Hfail.
  rewrite (perform_ping_unfold _ _ _ _ _ Hname).
  rewrite (ping_body_discovered B str_other conf url key name w log
             Hurl Hkey Hname c w1 Hcreate rows w2 schemas Hquery Hrows).
  rewrite Hs. destruct (pre ++ s :: post)%list eqn:Hl; [by destruct pre|].
  rewrite <- Hl.
  destruct (collect_tables_stable_log B c _ _ Hcat [] w2
              (log ++ [EvCreateClient url key; EvSql schemas_query])%list)
    as (w3 & Hcol).
  destruct (Hfail w3) as (w4 & Hq).
  unfold bind at 1. rewrite collect_tables_app. step Hcol.
  simpl collect_tables.
  step_raise (call_Raise (EvSql (tables_query s)) _ _
                ((log ++ [EvCreateClient url key; EvSql schemas_query])
                   ++ table_queries pre)%list _ _ Hq).
  exists w4. by rewrite <- !app_assoc.
Qed.

End CallSequence.

(** The first target without its name, on the test double. *)
Lemma perform_ping_without_name_witness :
  ∃ σ', _perform_ping demo str_plain (delete "name" demo_a) (0%nat, [])
        = (Raise (KeyError "name"), σ').
Proof.
  apply (perform_ping_without_name demo str_plain (delete "name" demo_a)).
  reflexivity.
Defined.

(** The first target without its URL, and without its key. *)
Lemma ping_missing_endpoint_witness :
  _perform_ping demo str_plain (delete "supabase_url" demo_a) (0%nat, [])
  = (Ok (false, "Error pinging a: 'supabase_url'"), (0%nat, [])) ∧
  _perform_ping demo str_plain (delete "supabase_key" demo_a) (0%nat, [])
  = (Ok (false, "Error pinging a: 'supabase_key'"), (0%nat, [])).
Proof.
  assert (delete "supabase_url" demo_a !! "name" = Some (JStr "a")) as Hu
    by reflexivity.
  assert (delete "supabase_key" demo_a !! "name" = Some (JStr "a")) as Hk
    by reflexivity.
  split.
  - apply (proj1 (ping_missing_endpoint demo str_plain
                    (delete "supabase_url" demo_a) (JStr "a") (0%nat, [])
                    Hu)).
    reflexivity.
  - apply (proj2 (ping_missing_endpoint demo str_plain
                    (delete "supabase_key" demo_a) (JStr "a") (0%nat, [])
                    Hk)).
    + eexists. reflexivity.
    + reflexivity.
Defined.

(** The first target against a backend where [secret] is refused. *)
Lemma probe_opens_one_connection_witness :
  contacted (_perform_ping demo_denied str_plain demo_a (0%nat, [])).2.2
  = [(JStr "https://a.supabase.co", JStr "key-a")].
Proof.
  exact (probe_opens_one_connection demo_denied str_plain demo_a
           (JStr "https://a.supabase.co") (JStr "key-a") eq_refl eq_refl
           (0%nat, [])).
Defined.

(** The loop on the two namespaces of the test double. *)
Lemma collect_tables_invariant_witness :
  collect_tables demo () ["public"; "empty"] [] (2%nat, [])
  = (Ok [("public", ["t1"])], (4%nat, table_queries ["public"; "empty"])) ∧
  NoDup [("public", ["t1"])].*1 ∧
  Forall (λ p : string * list string, p.2 ≠ []) [("public", ["t1"])].
Proof.
  split; [reflexivity|].
  destruct (collect_tables_invariant demo () ["public"; "empty"] []
              (2%nat, []) [("public", ["t1"])]
              (4%nat, table_queries ["public"; "empty"]) eq_refl
              (NoDup_nil_2 (A:=string)) (Forall_nil_2 _))
    as (Hnd & Hne & _).
  split; [exact Hnd|exact Hne].
Defined.

(** A backend that answers with rows without columns. *)
Lemma ping_malformed_schema_rows_witness :
  _perform_ping demo_malformed str_plain demo_a (0%nat, [])
  = (Ok (false, "Error pinging a: 'schema_name'"),
     (2%nat, [EvCreateClient (JStr "https://a.supabase.co") (JStr "key-a");
              EvSql schemas_query])).
Proof.
  exact (ping_malformed_schema_rows demo_malformed str_plain demo_a
           (JStr "https://a.supabase.co") (JStr "key-a") (JStr "a")
           0%nat [] () 1%nat [∅] 2%nat eq_refl eq_refl eq_refl eq_refl
           eq_refl eq_refl).
Defined.

Lemma demo_late_stable :
  stable_catalog demo_late () ["empty"; "public"] demo_tabs.
Proof.
  intros s w Hs. apply elem_of_cons in Hs as [->|Hs].
  - eexists _, _. split; reflexivity.
  - apply list_elem_of_singleton in Hs as ->.
    eexists _, _. split; reflexivity.
Defined.

Lemma demo_denied_stable : stable_catalog demo_denied () ["public"] demo_tabs.
Proof.
  intros s w Hs. apply list_elem_of_singleton in Hs as ->.
  eexists _, _. split; reflexivity.
Defined.

(** The namespace [empty] comes first; the table read is [public.t1]. *)
Lemma ping_success_calls_witness :
  ∃ msg w',
    _perform_ping demo_late str_plain demo_a (0%nat, [])
    = (Ok (true, msg),
       (w', [EvCreateClient (JStr "https://a.supabase.co") (JStr "key-a");
             EvSql schemas_query;
             EvSql (tables_query "empty"); EvSql (tables_query "public");
             EvTable "public.t1"])).
Proof.
  apply (ping_success_calls demo_late str_plain demo_a
           (JStr "https://a.supabase.co") (JStr "key-a") (JStr "a")
           0%nat [] () 1%nat
           [name_row "schema_name" "empty"; name_row "schema_name" "public"]
           2%nat eq_refl eq_refl eq_refl eq_refl eq_refl
           ["empty"; "public"] eq_refl
           demo_tabs ["empty"] "public" [] "t1" []).
  - reflexivity.
  - repeat constructor.
  - reflexivity.
  - exact demo_late_stable.
  - intros t w'. by eexists.
Defined.

(** The table query of [secret] is refused: [later] is never asked for. *)
Lemma ping_stops_at_failed_table_query_witness :
  ∃ w',
    _perform_ping demo_denied str_plain demo_a (0%nat, [])
    = (Ok (false, "Error pinging a: permission denied"),
       (w', [EvCreateClient (JStr "https://a.supabase.co") (JStr "key-a");
             EvSql schemas_query;
             EvSql (tables_query "public"); EvSql (tables_query "secret")])).
Proof.
  apply (ping_stops_at_failed_table_query demo_denied str_plain demo_a
           (JStr "https://a.supabase.co") (JStr "key-a") (JStr "a")
           0%nat [] () 1%nat
           [name_row "schema_name" "public"; name_row "schema_name" "secret";
            name_row "schema_name" "later"]
           2%nat eq_refl eq_refl eq_refl eq_refl eq_refl
           ["public"; "secret"; "later"] eq_refl
           demo_tabs ["public"] "secret" ["later"]
           (ClientError "permission denied")).
  - reflexivity.
  - exact demo_denied_stable.
  - intros w'. by eexists.
Defined.

(* ===================================================================== *)
(** ** More on the lookups and the routes *)
(* ===================================================================== *)

Section RouteMore.

Context (B : Supabase).
Variable str_other : json → string.
Variable iter_set : gset string → list string.

Lemma perform_ping_same_target conf1 conf2 σ :
  same_target conf1 conf2 →
  _perform_ping B str_other conf1 σ = _perform_ping B str_other conf2 σ.
Proof.
  intros (Hn & Hu & Hk).
  unfold _perform_ping, ping_body, ping_first_table, getitem.
  by rewrite Hn, Hu, Hk.
Qed.

Lemma ping_each_same_targets confs1 confs2 :
  Forall2 same_target confs1 confs2 →
  ∀ acc σ, ping_each B str_other confs1 acc σ
           = ping_each B str_other confs2 acc σ.
Proof.
  induction 1 as [|c1 c2 l1 l2 Hc Hl IH]; intros acc σ; simpl; [done|].
  unfold bind. rewrite (perform_ping_same_target c1 c2 σ Hc).
  destruct (_perform_ping B str_other c2 σ) as [[[success msg]|e|] σ1];
    [apply IH|done|done].
Qed.

Lemma get_conf_by_index_same_targets confs1 confs2 idx σ :
  Forall2 same_target confs1 confs2 →
  (∃ c1 c2, same_target c1 c2 ∧
            _get_conf_by_index B confs1 idx σ = (Ok c1, σ) ∧
            _get_conf_by_index B confs2 idx σ = (Ok c2, σ)) ∨
  (∃ e, _get_conf_by_index B confs1 idx σ = (Raise e, σ) ∧
        _get_conf_by_index B confs2 idx σ = (Raise e, σ)).
Proof.
  intros Hall. pose proof (Forall2_length _ _ _ Hall) as Hlen.
  unfold _get_conf_by_index. rewrite <- Hlen.
  case_bool_decide as Hout; [right; by eexists|].
  destruct (lookup_lt_is_Some_2 confs1 (Z.to_nat idx)) as [c1 Hc1]; [lia|].
  destruct (Forall2_lookup_l _ _ _ _ _ Hall Hc1) as (c2 & Hc2 & Hsame).
  rewrite Hc1, Hc2. left. by exists c1, c2.
Qed.

Lemma get_conf_by_name_same_targets confs1 confs2 name σ :
  Forall2 same_target confs1 confs2 →
  (∃ c1 c2, same_target c1 c2 ∧
            _get_conf_by_name B confs1 name σ = (Ok c1, σ) ∧
            _get_conf_by_name B confs2 name σ = (Ok c2, σ)) ∨
  (∃ e, _get_conf_by_name B confs1 name σ = (Raise e, σ) ∧
        _get_conf_by_name B confs2 name σ = (Raise e, σ)).
Proof.
  induction 1 as [|c1 c2 l1 l2 Hc Hl IH]; simpl; [right; by eexists|].
  unfold bind, getitem. pose proof Hc as (Hn & Hu & Hk). rewrite <- Hn.
  destruct (c1 !! "name") as [n|]; simpl; [|right; by eexists].
  destruct (eq_str n name); [|exact IH].
  left. by exists c1, c2.
Qed.

(** X17. No route's answer depends on [table_name] or on any field other
    than [name], [supabase_url] and [supabase_key]: past the guard, two
    configuration lists whose targets agree pairwise on these three fields
    give, from the same backend state, the same outcome, the same final
    state and the same calls, on each of the three routes. *)
Theorem routes_ignore_other_fields st1 st2 confs1 confs2 σ :
  truthy (startup_error st1) = false →
  truthy (startup_error st2) = false →
  typed_config_list (config_list st1) = Some confs1 →
  typed_config_list (config_list st2) = Some confs2 →
  Forall2 same_target confs1 confs2 →
  keepalive_all B str_other st1 σ = keepalive_all B str_other st2 σ ∧
  (∀ idx, keepalive_by_index B str_other st1 idx σ
          = keepalive_by_index B str_other st2 idx σ) ∧
  (∀ name, keepalive_by_name B str_other st1 name σ
           = keepalive_by_name B str_other st2 name σ).
Proof.
  intros Hg1 Hg2 Ht1 Ht2 Hall.
  unfold keepalive_all, keepalive_by_index, keepalive_by_name.
  split_and!; [|intros idx|intros name];
    rewrite (open_guard _ _ confs1 _ σ Hg1 Ht1),
            (open_guard _ _ confs2 _ σ Hg2 Ht2).
  - unfold bind. rewrite (ping_each_same_targets _ _ Hall 0 σ).
    by rewrite (Forall2_length _ _ _ Hall).
  - destruct (get_conf_by_index_same_targets confs1 confs2 idx σ Hall)
      as [(c1 & c2 & Hsame & H1 & H2)|(e & H1 & H2)].
    + step H1. step H2. unfold bind.
      by rewrite (perform_ping_same_target c1 c2 σ Hsame).
    + step_raise H1. by step_raise H2.
  - destruct (get_conf_by_name_same_targets confs1 confs2 name σ Hall)
      as [(c1 & c2 & Hsame & H1 & H2)|(e & H1 & H2)].
    + step H1. step H2. unfold bind.
      by rewrite (perform_ping_same_target c1 c2 σ Hsame).
    + step_raise H1. by step_raise H2.
Qed.

End RouteMore.

Section RouteSelection.

Context (B : Supabase).
Variable str_other : json → string.
Variable iter_set : gset string → list string.

(** X12. What the lookup by name returns is an element of the list whose
    [name] is the string asked for, and the lookup leaves the state as it
    was. A target whose [name] is not a string is never returned. *)
Theorem get_conf_by_name_sound confs name σ conf σ' :
  _get_conf_by_name B confs name σ = (Ok conf, σ') →
  conf ∈ confs ∧ conf !! "name" = Some (JStr name) ∧ σ' = σ.
Proof.
  induction confs as [|c confs IH]; simpl; [done|]. intros H.
  apply bind_Ok_inv in H as (n & σ1 & Hn & H).
  apply getitem_Ok_inv in Hn as [Hn ->].
  destruct (eq_str n name) eqn:Heq.
  - injection H as <- <-. apply eq_str_spec in Heq as ->.
    split; [by left|done].
  - destruct (IH H) as (Hin & Hc & ->). split; [by right|done].
Qed.

(** X13. Past the guard, asking for a target by its name is asking for it
    by the index of the first target of that name: the two routes give the
    same outcome, the same final state and the same calls. *)
Theorem keepalive_by_name_is_by_index st confs name i conf σ :
  truthy (startup_error st) = false →
  typed_config_list (config_list st) = Some confs →
  Forall (λ conf, is_Some (conf !! "name")) confs →
  confs !! i = Some conf → conf !! "name" = Some (JStr name) →
  (∀ j c, (j < i)%nat → confs !! j = Some c →
          c !! "name" ≠ Some (JStr name)) →
  keepalive_by_name B str_other st name σ
  = keepalive_by_index B str_other st (Z.of_nat i) σ.
Proof.
  intros Hg Ht Hall Hi Hn Hfirst.
  unfold keepalive_by_name, keepalive_by_index.
  rewrite !(open_guard _ _ confs _ σ Hg Ht).
  step (get_conf_by_name_first B confs name σ i conf Hall Hi Hn Hfirst).
  destruct (get_conf_by_index_in B confs (Z.of_nat i) σ) as (conf' & Hc & Hr).
  { apply lookup_lt_Some in Hi. lia. }
  rewrite Nat2Z.id, Hi in Hc. injection Hc as <-.
  by step Hr.
Qed.

(** X14. Past the guard, the route by index with an index within the list
    probes the target at that position and no other: it answers 200
    "success" with the message of that probe when it succeeded and 500
    "error" with its message when it did not, and the log shows one
    connection, to the endpoint of that target. *)
Theorem keepalive_by_index_selected st confs idx conf σ :
  truthy (startup_error st) = false →
  typed_config_list (config_list st) = Some confs →
  (0 ≤ idx)%Z → confs !! Z.to_nat idx = Some conf →
  well_formed conf →
  ∃ success msg σ',
    _perform_ping B str_other conf σ = (Ok (success, msg), σ') ∧
    keepalive_by_index B str_other st idx σ
    = (Ok (JSONResponse (if success then 200 else 500)
             (if success then "success" else "error") msg), σ') ∧
    contacted σ'.2 = (contacted σ.2 ++ [endpoint conf])%list.
Proof.
  intros Hg Ht Hidx Hc Hwf.
  destruct (perform_ping_Ok B str_other conf σ (proj1 Hwf))
    as ([success msg] & σ' & Hp).
  exists success, msg, σ'. split; [done|].
  pose proof (perform_ping_contacts B str_other conf Hwf σ) as Hlog.
  rewrite Hp in Hlog. split; [|done].
  unfold keepalive_by_index. rewrite (open_guard _ _ confs _ σ Hg Ht).
  destruct (get_conf_by_index_in B confs idx σ) as (conf' & Hc' & Hr).
  { apply lookup_lt_Some in Hc. lia. }
  rewrite Hc in Hc'. injection Hc' as <-.
  step Hr. by step Hp.
Qed.

(** X15. After a start-up without error the route by index with its
    default index 0 always finds a target: it answers with a response,
    200 or 500, never with the 404 of the lookup. *)
Theorem keepalive_default_index decoded :
  startup_error (module_init iter_set decoded) = None →
  ∀ σ, ∃ resp σ',
    keepalive_by_index B str_other (module_init iter_set decoded) 0 σ
    = (Ok resp, σ') ∧
    (status_code resp = 200%nat ∨ status_code resp = 500%nat).
Proof.
  intros Hnone σ.
  destruct (init_typed iter_set decoded Hnone)
    as (confs & Hcl & Htyped & Hne & Hall).
  assert (truthy (startup_error (module_init iter_set decoded)) = false)
    as Hg by (by rewrite Hnone).
  unfold keepalive_by_index. rewrite (open_guard _ _ confs _ σ Hg Htyped).
  destruct confs as [|conf confs]; [done|].
  inversion Hall as [|? ? Hconf _]; subst.
  destruct (get_conf_by_index_in B (conf :: confs) 0 σ) as (conf' & Hc & Hr).
  { simpl. lia. }
  injection Hc as <-. step Hr.
  destruct (perform_ping_Ok B str_other conf σ (proj1 Hconf))
    as ([success msg] & σ' & Hp).
  step Hp. eexists _, σ'. split; [done|].
  destruct success; simpl; auto.
Qed.

(** X16. Every response a route returns is coherent: its status is
    "success" with the code 200 or "error" with the code 500, in every
    state of the globals and of the backend. *)
Theorem route_responses_coherent st σ :
  (∀ resp σ', keepalive_all B str_other st σ = (Ok resp, σ') →
     coherent resp) ∧
  (∀ idx resp σ', keepalive_by_index B str_other st idx σ = (Ok resp, σ') →
     coherent resp) ∧
  (∀ name resp σ', keepalive_by_name B str_other st name σ = (Ok resp, σ') →
     coherent resp).
Proof.
  assert (∀ conf σ1 resp σ',
    (let* (success, msg) := _perform_ping B str_other conf in
     ret (JSONResponse (if success : bool then 200 else 500)
            (if success : bool then "success" else "error") msg)) σ1
    = (Ok resp, σ') → coherent resp) as Hone.
  { intros conf σ1 resp σ' H.
    apply bind_Ok_inv in H as ([[] msg] & σ2 & _ & H);
      injection H as <- _; [by left|by right]. }
  unfold keepalive_all, keepalive_by_index, keepalive_by_name.
  destruct (truthy (startup_error st)).
  { split_and!; intros; match goal with
      | H : ret _ _ = _ |- _ => injection H as <- _ end; by right. }
  destruct (typed_config_list (config_list st)) as [confs|]; [|done].
  split_and!.
  - intros resp σ' H. apply bind_Ok_inv in H as (n & σ1 & _ & H).
    repeat case_bool_decide; injection H as <- _;
      first [by left|by right].
  - intros idx resp σ' H. apply bind_Ok_inv in H as (conf & σ1 & _ & H).
    by eapply Hone.
  - intros name resp σ' H. apply bind_Ok_inv in H as (conf & σ1 & _ & H).
    by eapply Hone.
Qed.

End RouteSelection.

Lemma demo_well_formed : Forall well_formed [demo_a; demo_b; demo_b2].
Proof. repeat constructor; eexists; reflexivity. Defined.

(** The name [b], found at index 1. *)
Lemma get_conf_by_name_sound_witness :
  demo_b ∈ [demo_a; demo_b; demo_b2] ∧
  demo_b !! "name" = Some (JStr "b").
Proof.
  destruct (get_conf_by_name_sound demo [demo_a; demo_b; demo_b2] "b"
              (0%nat, []) demo_b (0%nat, []) eq_refl) as (Hin & Hn & _).
  split; [exact Hin|exact Hn].
Defined.

(** The name [b] and the index 1. *)
Lemma keepalive_by_name_is_by_index_witness :
  keepalive_by_name demo str_plain (module_init elements demo_decoded) "b"
    (0%nat, [])
  = keepalive_by_index demo str_plain (module_init elements demo_decoded) 1
      (0%nat, []).
Proof.
  apply (keepalive_by_name_is_by_index demo str_plain
           (module_init elements demo_decoded) [demo_a; demo_b; demo_b2]
           "b" 1%nat demo_b (0%nat, []) eq_refl eq_refl demo_names
           eq_refl eq_refl).
  intros j c Hj Hc. destruct j as [|j]; [|lia].
  injection Hc as <-. discriminate.
Defined.

(** The index 2 of three targets. *)
Lemma keepalive_by_index_selected_witness :
  ∃ success msg σ',
    keepalive_by_index demo str_plain (module_init elements demo_decoded) 2
      (0%nat, [])
    = (Ok (JSONResponse (if success : bool then 200 else 500)
             (if success : bool then "success" else "error") msg), σ') ∧
    contacted σ'.2 = [(JStr "https://b2.supabase.co", JStr "key-b2")].
Proof.
  destruct (keepalive_by_index_selected demo str_plain
              (module_init elements demo_decoded) [demo_a; demo_b; demo_b2]
              2 demo_b2 (0%nat, []) eq_refl eq_refl)
    as (success & msg & σ' & _ & Hr & Hlog).
  - lia.
  - reflexivity.
  - repeat split; eexists; reflexivity.
  - exists success, msg, σ'. split; [exact Hr|exact Hlog].
Defined.

(** Three complete targets, the first connection refused. *)
Lemma keepalive_default_index_witness :
  ∃ resp σ',
    keepalive_by_index (demo_outage ["https://a.supabase.co"]) str_plain
      (module_init elements demo_decoded) 0 (0%nat, [])
    = (Ok resp, σ') ∧
    (status_code resp = 200%nat ∨ status_code resp = 500%nat).
Proof.
  exact (keepalive_default_index (demo_outage ["https://a.supabase.co"])
           str_plain elements demo_decoded eq_refl (0%nat, [])).
Defined.

(** The response of the aggregate with one endpoint down. *)
Lemma route_responses_coherent_witness :
  coherent (JSONResponse 500 "error" "partial_failure").
Proof.
  eapply (proj1 (route_responses_coherent
                   (demo_outage ["https://b.supabase.co"]) str_plain
                   (module_init elements demo_decoded) (0%nat, []))).
  reflexivity.
Defined.

(** The first target with another [table_name] and one more field. *)
Lemma routes_ignore_other_fields_witness :
  keepalive_all demo str_plain
    (module_init elements (inr (JArr [JObj demo_a; JObj demo_b])))
    (0%nat, [])
  = keepalive_all demo str_plain
      (module_init elements (inr (JArr [JObj demo_a'; JObj demo_b])))
      (0%nat, []).
Proof.
  apply (routes_ignore_other_fields demo str_plain
           (module_init elements (inr (JArr [JObj demo_a; JObj demo_b])))
           (module_init elements (inr (JArr [JObj demo_a'; JObj demo_b])))
           [demo_a; demo_b] [demo_a'; demo_b] (0%nat, [])
           eq_refl eq_refl eq_refl eq_refl).
  repeat constructor.
Defined.
